(** * Anonymous chat server: matchmaking and session relay

    A shallow embedding of [src/app.js]: the [LocationService.calculateDistance]
    helper, the [ChatManager] class and the socket.io event handlers
    registered in [io.on('connection', ...)].

    Conventions.
    - JavaScript numbers are IEEE-754 doubles: coordinates and distances are
      primitive floats.  The built-ins [Math.sin], [Math.cos], [Math.atan2]
      and [Math.round] are not part of the repository; they are taken as a
      parameter ([MathLib]).
    - [null] / [undefined] are [None].
    - [uuidv4()] and [Date.now()] are inputs of the handler that calls them.
    - A JavaScript [Map] is an association list in insertion order
      ([Map_get], [Map_set], [Map_delete]); [chatManager.userSockets] and
      [io.sockets.sockets], which are never iterated, are [gmap]s.
    - The handlers are written in state-passing style: each one takes the
      server state and returns the new state together with the events it
      delivered, each paired with the socket that receives it. *)

From Stdlib Require Import Floats.PrimFloat ZArith.
From stdpp Require Import gmap strings list.

Local Open Scope Z_scope.

(** ** JavaScript values *)

(** [!x] for a number: [0], [-0] and [NaN] are falsy. *)
Definition number_falsy (x : float) : bool :=
  (PrimFloat.eqb x 0%float || negb (PrimFloat.eqb x x))%bool.

(** [!x] for a number that may be [null] or [undefined]. *)
Definition falsy (x : option float) : bool :=
  match x with
  | None => true
  | Some v => number_falsy v
  end.

(** [x || d] for a string that may be [undefined]: the empty string is
    falsy. *)
Definition string_or (x : option string) (d : string) : string :=
  match x with
  | None => d
  | Some s => if decide (s = EmptyString) then d else s
  end.

(** [x || d] for a number that may be [undefined]. *)
Definition number_or (x : option float) (d : float) : float :=
  match x with
  | None => d
  | Some v => if number_falsy v then d else v
  end.

(** The [Math] built-ins used by [calculateDistance]. *)
Record MathLib := {
  Math_sin : float → float;
  Math_cos : float → float;
  Math_atan2 : float → float → float;
  Math_round : float → float
}.

Definition Math_PI : float := 0x1.921fb54442d18p+1%float.
Definition Math_sqrt : float → float := PrimFloat.sqrt.

(** ** JavaScript [Map], in insertion order *)

Section JSMap.
Context {V : Type}.

Fixpoint Map_get (k : string) (m : list (string * V)) : option V :=
  match m with
  | [] => None
  | (k', v) :: m' => if decide (k' = k) then Some v else Map_get k m'
  end.

(** [set] keeps the position of a key that is already present. *)
Fixpoint Map_set (k : string) (v : V) (m : list (string * V)) : list (string * V) :=
  match m with
  | [] => [(k, v)]
  | (k', v') :: m' =>
      if decide (k' = k) then (k, v) :: m' else (k', v') :: Map_set k v m'
  end.

Definition Map_delete (k : string) (m : list (string * V)) : list (string * V) :=
  filter (λ p, p.1 ≠ k) m.
End JSMap.

(** ** Data model *)

(** The object returned by [LocationService.getLocationFromIP]. *)
Record Location := {
  country : option string;
  region : option string;
  city : option string;
  latitude : option float;
  longitude : option float
}.

(** [userWithLocation], built by the [join-system] handler; a waiting entry
    has the same fields ([{socketId, ...userInfo, joinedAt}]). *)
Record User := {
  nickname : option string;
  socketId : string;
  joinedAt : Z;
  location : option Location;
  ip : string
}.

Inductive MessageBody :=
| text (content : string)
| media (mediaType content thumbnailUrl filename originalName : option string)
        (size : option float) (mimetype : option string)
| voice (content : option string) (duration : float) (size : option float).

Record Message := {
  message_id : string;
  body : MessageBody;
  senderId : string;
  timestamp : Z
}.

Record Room := {
  room_id : string;
  user1 : User;
  user2 : User;
  createdAt : Z;
  messages : list Message;
  distance : option float
}.

Record ChatManager := {
  waitingUsers : list User;
  activeRooms : list (string * Room);
  userSockets : gmap string User
}.

(** ** LocationService.calculateDistance *)

Section Distance.
Context (Math : MathLib).

Definition calculateDistance (lat1 lon1 lat2 lon2 : option float) : option float :=
  if (falsy lat1 || falsy lon1 || falsy lat2 || falsy lon2)%bool then None
  else
    match lat1, lon1, lat2, lon2 with
    | Some lat1, Some lon1, Some lat2, Some lon2 =>
        let R := 6371%float in
        let dLat := ((lat2 - lat1) * Math_PI / 180)%float in
        let dLon := ((lon2 - lon1) * Math_PI / 180)%float in
        let a :=
          (Math_sin Math (dLat / 2) * Math_sin Math (dLat / 2) +
           Math_cos Math (lat1 * Math_PI / 180) * Math_cos Math (lat2 * Math_PI / 180) *
           Math_sin Math (dLon / 2) * Math_sin Math (dLon / 2))%float in
        let c := (2 * Math_atan2 Math (Math_sqrt a) (Math_sqrt (1 - a)))%float in
        let distance := (R * c)%float in
        Some (Math_round Math distance)
    | _, _, _, _ => None
    end.
End Distance.

(** ** ChatManager *)

Definition ChatManager_new : ChatManager :=
  {| waitingUsers := []; activeRooms := []; userSockets := ∅ |}.

Definition set_waitingUsers (w : list User) (cm : ChatManager) : ChatManager :=
  {| waitingUsers := w; activeRooms := activeRooms cm; userSockets := userSockets cm |}.

Definition set_activeRooms (r : list (string * Room)) (cm : ChatManager) : ChatManager :=
  {| waitingUsers := waitingUsers cm; activeRooms := r; userSockets := userSockets cm |}.

Definition set_userSockets (u : gmap string User) (cm : ChatManager) : ChatManager :=
  {| waitingUsers := waitingUsers cm; activeRooms := activeRooms cm; userSockets := u |}.

(** [{socketId, ...userInfo, joinedAt: Date.now()}]: the [socketId] of
    [userInfo] comes later in the object literal and wins. *)
Definition waiting_entry (sid : string) (userInfo : User) (now : Z) : User :=
  {| nickname := nickname userInfo;
     socketId := socketId userInfo;
     joinedAt := now;
     location := location userInfo;
     ip := ip userInfo |}.

Definition addWaitingUser (sid : string) (userInfo : User) (now : Z)
    (cm : ChatManager) : ChatManager :=
  set_waitingUsers (waitingUsers cm ++ [waiting_entry sid userInfo now]) cm.

Definition removeWaitingUser (sid : string) (cm : ChatManager) : ChatManager :=
  set_waitingUsers (filter (λ user, socketId user ≠ sid) (waitingUsers cm)) cm.

Definition findMatch (currentSocketId : string) (cm : ChatManager)
    : option User * ChatManager :=
  let availableUsers :=
    filter (λ user, socketId user ≠ currentSocketId) (waitingUsers cm) in
  match availableUsers with
  | matchedUser :: _ =>
      (Some matchedUser,
       removeWaitingUser (socketId matchedUser)
         (removeWaitingUser currentSocketId cm))
  | [] => (None, cm)
  end.

Definition createRoom (Math : MathLib) (u1 u2 : User) (uuid : string) (now : Z)
    (cm : ChatManager) : Room * ChatManager :=
  let roomId := uuid in
  let distance :=
    match location u1, location u2 with
    | Some l1, Some l2 =>
        calculateDistance Math (latitude l1) (longitude l1) (latitude l2) (longitude l2)
    | _, _ => None
    end in
  let room :=
    {| room_id := roomId; user1 := u1; user2 := u2; createdAt := now;
       messages := []; distance := distance |} in
  (room, set_activeRooms (Map_set roomId room (activeRooms cm)) cm).

Definition is_member (sid : string) (room : Room) : Prop :=
  socketId (user1 room) = sid ∨ socketId (user2 room) = sid.

Fixpoint find_room (sid : string) (rooms : list (string * Room)) : option Room :=
  match rooms with
  | [] => None
  | (_, room) :: rest =>
      if decide (is_member sid room) then Some room else find_room sid rest
  end.

Definition getRoomBySocketId (sid : string) (cm : ChatManager) : option Room :=
  find_room sid (activeRooms cm).

Definition removeRoom (roomId : string) (cm : ChatManager) : ChatManager :=
  set_activeRooms (Map_delete roomId (activeRooms cm)) cm.

Definition getPartnerSocketId (roomId currentSocketId : string) (cm : ChatManager)
    : option string :=
  match Map_get roomId (activeRooms cm) with
  | None => None
  | Some room =>
      if decide (socketId (user1 room) = currentSocketId) then Some (socketId (user2 room))
      else if decide (socketId (user2 room) = currentSocketId) then Some (socketId (user1 room))
      else None
  end.

Definition getPartnerInfo (roomId currentSocketId : string) (cm : ChatManager)
    : option User :=
  match Map_get roomId (activeRooms cm) with
  | None => None
  | Some room =>
      if decide (socketId (user1 room) = currentSocketId) then Some (user2 room)
      else if decide (socketId (user2 room) = currentSocketId) then Some (user1 room)
      else None
  end.

(** [{...message, timestamp: Date.now()}] is pushed on the log of the room
    stored under [roomId]; nothing happens when there is none. *)
Definition push_message (message : Message) (now : Z) (room : Room) : Room :=
  {| room_id := room_id room; user1 := user1 room; user2 := user2 room;
     createdAt := createdAt room;
     messages := messages room ++
       [ {| message_id := message_id message; body := body message;
            senderId := senderId message; timestamp := now |} ];
     distance := distance room |}.

Definition addMessageToRoom (roomId : string) (message : Message) (now : Z)
    (cm : ChatManager) : ChatManager :=
  match Map_get roomId (activeRooms cm) with
  | Some room =>
      set_activeRooms (Map_set roomId (push_message message now room) (activeRooms cm)) cm
  | None => cm
  end.

(** ** Events *)

Inductive CallKind := voice_call | video_call.
Inductive SignalKind := offer | answer | ice_candidate.
Inductive TypingKind := typing_start | typing_stop.

Module LocationInfo.
Record t := {
  country : option string;
  city : option string;
  region : option string;
  distance : option float
}.
End LocationInfo.

Module PartnerInfo.
Record t := { nickname : string; location : option LocationInfo.t }.
End PartnerInfo.

Module RoomInfo.
Record t := { roomId : string; partnerId : string; partnerInfo : PartnerInfo.t }.
End RoomInfo.

(** Events sent by the server.  The two call kinds, the three signaling
    kinds and the two typing kinds have handlers that differ only in the
    event names, so each family is one constructor indexed by its kind. *)
Inductive Outbound :=
| joined_system (socketId : string) (location : option Location)
| error (message : string)
| partner_found (info : RoomInfo.t)
| searching_partner
| new_message (message : Message)
| partner_location (location : option LocationInfo.t)
| partner_disconnected
| chat_stopped
| incoming_call (k : CallKind) (callerId callerNickname : string)
| call_accepted (k : CallKind) (accepterId : string)
| call_rejected (k : CallKind) (rejecterId : string)
| call_ended (k : CallKind)
| webrtc (k : SignalKind) (payload senderId : string)
| partner_typing (k : TypingKind).

(** The payload of the three [send-*] events. *)
Inductive MessageData :=
| text_data (message : string)
| media_data (mediaType url thumbnailUrl filename originalName : option string)
             (size : option float) (mimetype : option string)
| voice_data (audioUrl : option string) (duration size : option float).

(** Events received by the server on one socket, with the values that the
    handler draws from [uuidv4()] and [Date.now()]. *)
Inductive Inbound :=
| ev_connection (userLocation : option Location) (clientIP : string)
| ev_join_system (nickname : option string) (now : Z)
| ev_find_partner (uuid : string) (now : Z)
| ev_send (data : MessageData) (uuid : string) (now now' : Z)
| ev_get_partner_location
| ev_stop_chat
| ev_initiate_call (k : CallKind)
| ev_accept_call (k : CallKind) (callerId : string)
| ev_reject_call (k : CallKind) (callerId : string)
| ev_end_call (k : CallKind)
| ev_webrtc (k : SignalKind) (payload : string)
| ev_typing (k : TypingKind)
| ev_disconnect.

(** ** The socket.io server

    A connected socket carries the variables captured by its handlers
    ([userLocation], [clientIP]) and the set [socket.rooms] of the relay
    groups it has joined; a socket starts in the group named by its own
    id. *)
Record Socket := {
  userLocation : option Location;
  clientIP : string;
  rooms : gset string
}.

Record Server := {
  chatManager : ChatManager;
  sockets : gmap string Socket
}.

(** An event delivered to the client of a socket. *)
Definition Delivery : Type := string * Outbound.

Definition init : Server := {| chatManager := ChatManager_new; sockets := ∅ |}.

(** The sockets that are in the relay group [room]. *)
Definition group (room : string) (sk : gmap string Socket) : list string :=
  (map_to_list (filter (λ p, room ∈ rooms p.2) sk)).*1.

(** [io.to(room).emit(ev)] *)
Definition io_to (room : string) (ev : Outbound) (sk : gmap string Socket)
    : list Delivery :=
  (λ c, (c, ev)) <$> group room sk.

(** [socket.emit(ev)] *)
Definition socket_emit (sid : string) (ev : Outbound) : list Delivery := [(sid, ev)].

Definition join (room : string) (s : Socket) : Socket :=
  {| userLocation := userLocation s; clientIP := clientIP s;
     rooms := {[room]} ∪ rooms s |}.

Definition leave (room : string) (s : Socket) : Socket :=
  {| userLocation := userLocation s; clientIP := clientIP s;
     rooms := rooms s ∖ {[room]} |}.

(** [io.sockets.sockets.get(sid)?.join(room)] *)
Definition socket_join (sid room : string) (sk : gmap string Socket) : gmap string Socket :=
  alter (join room) sid sk.

Definition socket_leave (sid room : string) (sk : gmap string Socket) : gmap string Socket :=
  alter (leave room) sid sk.

(** The events that socket [c] receives among the deliveries [out]. *)
Definition received (c : string) (out : list Delivery) : list Outbound :=
  (filter (λ d, d.1 = c) out).*2.

(** ** Event handlers *)

Definition with_chatManager (cm : ChatManager) (st : Server) : Server :=
  {| chatManager := cm; sockets := sockets st |}.

(** [io.on('connection')]: the handlers of the new socket are registered. *)
Definition on_connection (sid : string) (loc : option Location) (clientIP : string)
    (st : Server) : Server * list Delivery :=
  ({| chatManager := chatManager st;
      sockets := <[sid := {| userLocation := loc; clientIP := clientIP;
                             rooms := {[sid]} |}]> (sockets st) |},
   []).

Definition on_join_system (sid : string) (sock : Socket) (nick : option string)
    (now : Z) (st : Server) : Server * list Delivery :=
  let userWithLocation :=
    {| nickname := nick; socketId := sid; joinedAt := now;
       location := userLocation sock; ip := clientIP sock |} in
  let cm := chatManager st in
  (with_chatManager (set_userSockets (<[sid := userWithLocation]> (userSockets cm)) cm) st,
   socket_emit sid (joined_system sid (userLocation sock))).

(** [{country, city, region, distance: room.distance}], or [null] when the
    user has no location. *)
Definition locationInfo (u : User) (room : Room) : option LocationInfo.t :=
  match location u with
  | Some l =>
      Some {| LocationInfo.country := country l;
              LocationInfo.city := city l;
              LocationInfo.region := region l;
              LocationInfo.distance := distance room |}
  | None => None
  end.

Definition on_find_partner (Math : MathLib) (sid uuid : string) (now : Z)
    (st : Server) : Server * list Delivery :=
  let cm := chatManager st in
  match userSockets cm !! sid with
  | None => (st, socket_emit sid (error "User not found in system"))
  | Some userInfo =>
      match getRoomBySocketId sid cm with
      | Some _ => (st, socket_emit sid (error "Already in a chat room"))
      | None =>
          match findMatch sid cm with
          | (Some match_, cm1) =>
              let '(room, cm2) := createRoom Math userInfo match_ uuid now cm1 in
              let sk1 := socket_join sid (room_id room) (sockets st) in
              let sk2 := socket_join (socketId match_) (room_id room) sk1 in
              let roomInfo :=
                {| RoomInfo.roomId := room_id room;
                   RoomInfo.partnerId := socketId match_;
                   RoomInfo.partnerInfo :=
                     {| PartnerInfo.nickname := string_or (nickname match_) "Anonymous";
                        PartnerInfo.location := locationInfo match_ room |} |} in
              let partnerRoomInfo :=
                {| RoomInfo.roomId := room_id room;
                   RoomInfo.partnerId := sid;
                   RoomInfo.partnerInfo :=
                     {| PartnerInfo.nickname := string_or (nickname userInfo) "Anonymous";
                        PartnerInfo.location := locationInfo userInfo room |} |} in
              ({| chatManager := cm2; sockets := sk2 |},
               socket_emit sid (partner_found roomInfo) ++
               io_to (socketId match_) (partner_found partnerRoomInfo) sk2)
          | (None, cm1) =>
              (with_chatManager (addWaitingUser sid userInfo now cm1) st,
               socket_emit sid searching_partner)
          end
      end
  end.

(** The message object built by [send-message], [send-media-message] and
    [send-voice-message]. *)
Definition make_message (data : MessageData) (uuid sid : string) (now : Z) : Message :=
  {| message_id := uuid;
     body :=
       match data with
       | text_data m => text m
       | media_data mediaType url thumbnailUrl filename originalName size mimetype =>
           media mediaType url thumbnailUrl filename originalName size mimetype
       | voice_data audioUrl duration size =>
           voice audioUrl (number_or duration 0%float) size
       end;
     senderId := sid;
     timestamp := now |}.

Definition on_send (sid : string) (data : MessageData) (uuid : string) (now now' : Z)
    (st : Server) : Server * list Delivery :=
  let cm := chatManager st in
  match getRoomBySocketId sid cm with
  | None => (st, socket_emit sid (error "Not in any chat room"))
  | Some room =>
      let message := make_message data uuid sid now in
      (with_chatManager (addMessageToRoom (room_id room) message now' cm) st,
       io_to (room_id room) (new_message message) (sockets st))
  end.

Definition on_get_partner_location (sid : string) (st : Server)
    : Server * list Delivery :=
  let cm := chatManager st in
  match getRoomBySocketId sid cm with
  | None => (st, socket_emit sid (error "Not in any chat room"))
  | Some room =>
      match getPartnerInfo (room_id room) sid cm with
      | Some partnerInfo => (st, socket_emit sid (partner_location (locationInfo partnerInfo room)))
      | None => (st, socket_emit sid (partner_location None))
      end
  end.

(** [io.to(partnerSocketId).emit(ev)] under [if (partnerSocketId)]. *)
Definition emit_to_partner (partner : option string) (ev : Outbound)
    (sk : gmap string Socket) : list Delivery :=
  match partner with
  | Some partnerSocketId => io_to partnerSocketId ev sk
  | None => []
  end.

Definition on_stop_chat (sid : string) (st : Server) : Server * list Delivery :=
  let cm1 := removeWaitingUser sid (chatManager st) in
  match getRoomBySocketId sid cm1 with
  | Some room =>
      let partnerSocketId := getPartnerSocketId (room_id room) sid cm1 in
      let out := emit_to_partner partnerSocketId partner_disconnected (sockets st) in
      let cm2 := removeRoom (room_id room) cm1 in
      ({| chatManager := cm2; sockets := socket_leave sid (room_id room) (sockets st) |},
       out ++ socket_emit sid chat_stopped)
  | None => (with_chatManager cm1 st, socket_emit sid chat_stopped)
  end.

Definition on_initiate_call (sid : string) (k : CallKind) (st : Server)
    : Server * list Delivery :=
  let cm := chatManager st in
  match getRoomBySocketId sid cm with
  | None => (st, socket_emit sid (error "Not in any chat room"))
  | Some room =>
      let partnerSocketId := getPartnerSocketId (room_id room) sid cm in
      (st,
       emit_to_partner partnerSocketId
         (incoming_call k sid (string_or (userSockets cm !! sid ≫= nickname) "Anonymous"))
         (sockets st))
  end.

Definition on_accept_call (sid : string) (k : CallKind) (callerId : string)
    (st : Server) : Server * list Delivery :=
  (st, io_to callerId (call_accepted k sid) (sockets st)).

Definition on_reject_call (sid : string) (k : CallKind) (callerId : string)
    (st : Server) : Server * list Delivery :=
  (st, io_to callerId (call_rejected k sid) (sockets st)).

(** The body shared by [end-*-call], [webrtc-*] and [typing-*]: forward
    [ev] to the partner when the socket is in a room, do nothing otherwise. *)
Definition forward_to_partner (sid : string) (ev : Outbound) (st : Server)
    : Server * list Delivery :=
  let cm := chatManager st in
  match getRoomBySocketId sid cm with
  | Some room =>
      (st, emit_to_partner (getPartnerSocketId (room_id room) sid cm) ev (sockets st))
  | None => (st, [])
  end.

Definition on_end_call (sid : string) (k : CallKind) (st : Server) :=
  forward_to_partner sid (call_ended k) st.

Definition on_webrtc (sid : string) (k : SignalKind) (payload : string) (st : Server) :=
  forward_to_partner sid (webrtc k payload sid) st.

Definition on_typing (sid : string) (k : TypingKind) (st : Server) :=
  forward_to_partner sid (partner_typing k) st.

(** socket.io takes a closing socket out of its relay groups and out of
    [io.sockets.sockets] before the ['disconnect'] listener runs. *)
Definition on_disconnect (sid : string) (st : Server) : Server * list Delivery :=
  let sk := delete sid (sockets st) in
  let cm1 := removeWaitingUser sid (chatManager st) in
  let cm2 := set_userSockets (delete sid (userSockets cm1)) cm1 in
  match getRoomBySocketId sid cm2 with
  | Some room =>
      let partnerSocketId := getPartnerSocketId (room_id room) sid cm2 in
      let out := emit_to_partner partnerSocketId partner_disconnected sk in
      ({| chatManager := removeRoom (room_id room) cm2; sockets := sk |}, out)
  | None => ({| chatManager := cm2; sockets := sk |}, [])
  end.

(** ** The event loop *)

(** One event of socket [sid].  A socket id names one connection, and only
    a connected socket has listeners. *)
Definition dispatch (Math : MathLib) (sid : string) (ev : Inbound) (st : Server)
    : Server * list Delivery :=
  match sockets st !! sid, ev with
  | None, ev_connection loc clientIP => on_connection sid loc clientIP st
  | None, _ => (st, [])
  | Some _, ev_connection _ _ => (st, [])
  | Some sock, ev_join_system nick now => on_join_system sid sock nick now st
  | Some _, ev_find_partner uuid now => on_find_partner Math sid uuid now st
  | Some _, ev_send data uuid now now' => on_send sid data uuid now now' st
  | Some _, ev_get_partner_location => on_get_partner_location sid st
  | Some _, ev_stop_chat => on_stop_chat sid st
  | Some _, ev_initiate_call k => on_initiate_call sid k st
  | Some _, ev_accept_call k callerId => on_accept_call sid k callerId st
  | Some _, ev_reject_call k callerId => on_reject_call sid k callerId st
  | Some _, ev_end_call k => on_end_call sid k st
  | Some _, ev_webrtc k payload => on_webrtc sid k payload st
  | Some _, ev_typing k => on_typing sid k st
  | Some _, ev_disconnect => on_disconnect sid st
  end.

Definition run (Math : MathLib) (evs : list (string * Inbound)) (st : Server) : Server :=
  foldl (λ st e, (dispatch Math e.1 e.2 st).1) st evs.

(** No connected socket is in the relay group [name]. *)
Definition name_free (name : string) (st : Server) : bool :=
  bool_decide (group name (sockets st) = []).

(** Socket ids and [uuidv4()] room ids are random: the id drawn for a new
    socket or for a new room names no relay group that is in use. *)
Definition id_fresh (ev : Inbound) (sid : string) (st : Server) : bool :=
  match ev with
  | ev_connection _ _ => name_free sid st
  | ev_find_partner uuid _ => name_free uuid st
  | _ => true
  end.

Fixpoint ids_fresh (Math : MathLib) (evs : list (string * Inbound)) (st : Server) : bool :=
  match evs with
  | [] => true
  | e :: evs' =>
      id_fresh e.2 e.1 st && ids_fresh Math evs' (dispatch Math e.1 e.2 st).1
  end.

(** A placeholder for [Math], for scenarios in which no distance is
    computed from coordinates. *)
Definition no_Math : MathLib :=
  {| Math_sin := λ x, x; Math_cos := λ x, x; Math_atan2 := λ y _, y;
     Math_round := λ x, x |}.

(** ** Invariants *)

(** The invariant of the matchmaking state. *)
Record inv (st : Server) : Prop := {
  inv_keys : NoDup (activeRooms (chatManager st)).*1;
  inv_room_id : ∀ k r, (k, r) ∈ activeRooms (chatManager st) → room_id r = k;
  inv_distinct : ∀ k r, (k, r) ∈ activeRooms (chatManager st) →
    socketId (user1 r) ≠ socketId (user2 r);
  inv_one_room : ∀ k1 r1 k2 r2 c,
    (k1, r1) ∈ activeRooms (chatManager st) →
    (k2, r2) ∈ activeRooms (chatManager st) →
    is_member c r1 → is_member c r2 → k1 = k2;
  inv_members_connected : ∀ k r c, (k, r) ∈ activeRooms (chatManager st) →
    is_member c r → is_Some (sockets st !! c);
  inv_waiting : ∀ u k r, u ∈ waitingUsers (chatManager st) →
    (k, r) ∈ activeRooms (chatManager st) → ¬ is_member (socketId u) r;
  inv_waiting_connected : ∀ u, u ∈ waitingUsers (chatManager st) →
    is_Some (sockets st !! socketId u);
  inv_registry : ∀ c u, userSockets (chatManager st) !! c = Some u → socketId u = c
}.

(** The invariant of the relay groups: every socket is in its own group
    and alone in it, and the group of an active room holds its members. *)
Record relay_inv (st : Server) : Prop := {
  relay_own : ∀ c s, sockets st !! c = Some s → c ∈ rooms s;
  relay_private : ∀ c c' s, sockets st !! c = Some s → c' ∈ rooms s →
    is_Some (sockets st !! c') → c' = c;
  relay_room : ∀ k r c s, (k, r) ∈ activeRooms (chatManager st) →
    sockets st !! c = Some s → (k ∈ rooms s ↔ is_member c r)
}.

(** Every room member and every waiting socket has a profile in the
    registry. *)
Record registered (st : Server) : Prop := {
  reg_members : ∀ k r c, (k, r) ∈ activeRooms (chatManager st) →
    is_member c r → is_Some (userSockets (chatManager st) !! c);
  reg_waiting : ∀ u, u ∈ waitingUsers (chatManager st) →
    is_Some (userSockets (chatManager st) !! socketId u)
}.

(** The member of [room] that is not [sid]. *)
Definition other_member (sid : string) (room : Room) : string :=
  if decide (socketId (user1 room) = sid) then socketId (user2 room)
  else socketId (user1 room).

(** ** Sample scenarios *)

Definition jakarta : Location :=
  {| country := Some "ID"; region := Some "JK"; city := Some "Jakarta";
     latitude := Some (-6.25)%float; longitude := Some 106.75%float |}.

(** Two sockets connect and register; the first one asks for a partner. *)
Definition one_waiting : list (string * Inbound) :=
  [ ("A", ev_connection (Some jakarta) "10.0.0.1");
    ("B", ev_connection None "10.0.0.2");
    ("A", ev_join_system (Some "alice") 1);
    ("B", ev_join_system None 2);
    ("A", ev_find_partner "room-0" 3) ].

(** Then the second one asks too, and the two are paired. *)
Definition paired : list (string * Inbound) :=
  one_waiting ++ [ ("B", ev_find_partner "room-1" 4) ].

(** The two positions of the distance example: (0, 0) and (0, 1) degrees. *)
Definition origin : Location :=
  {| country := None; region := None; city := None;
     latitude := Some 0%float; longitude := Some 0%float |}.

Definition one_degree_east : Location :=
  {| country := None; region := None; city := None;
     latitude := Some 0%float; longitude := Some 1%float |}.

Definition user_at (sid : string) (l : Location) : User :=
  {| nickname := None; socketId := sid; joinedAt := 0; location := Some l;
     ip := EmptyString |}.

(** The snapshot, in [room], of the member that is not [sid]. *)
Definition other_user (sid : string) (room : Room) : User :=
  if decide (socketId (user1 room) = sid) then user2 room else user1 room.

(** The events that name their recipient themselves. *)
Definition is_call_answer (ev : Inbound) : bool :=
  match ev with
  | ev_accept_call _ _ | ev_reject_call _ _ => true
  | _ => false
  end.

(** ** Upload filters *)

(** [text.startsWith(prefix)] *)
Definition startsWith (text prefix : string) : bool := String.prefix prefix text.

(** The table [allowedTypes] of [fileFilter], by key. *)
Definition allowedTypes (key : string) : list string :=
  if decide (key = "image") then
    ["image/jpeg"; "image/jpg"; "image/png"; "image/gif"; "image/webp"]
  else if decide (key = "video") then
    ["video/mp4"; "video/avi"; "video/mov"; "video/wmv"; "video/webm"]
  else if decide (key = "audio") then
    ["audio/mpeg"; "audio/wav"; "audio/ogg"; "audio/webm"; "audio/m4a"]
  else if decide (key = "document") then
    ["application/pdf"; "application/msword";
     "application/vnd.openxmlformats-officedocument.wordprocessingml.document";
     "text/plain"]
  else [].

Definition allAllowedTypes : list string :=
  allowedTypes "image" ++ allowedTypes "video" ++ allowedTypes "audio" ++
  allowedTypes "document".

(** [fileFilter]: whether the callback is called with [true]. *)
Definition fileFilter (mimetype : string) : bool :=
  bool_decide (mimetype ∈ allAllowedTypes).

(** The [fileFilter] of [uploadImage]. *)
Definition uploadImage_fileFilter (mimetype : string) : bool :=
  startsWith mimetype "image/".

(** [MediaProcessor.getMediaType] *)
Definition getMediaType (mimetype : string) : string :=
  if startsWith mimetype "image/" then "image"
  else if startsWith mimetype "video/" then "video"
  else if startsWith mimetype "audio/" then "audio"
  else "document".

(** The copy of a message that [addMessageToRoom] stores. *)
Definition stored (message : Message) (now : Z) : Message :=
  {| message_id := message_id message; body := body message;
     senderId := senderId message; timestamp := now |}.

(** ** Association lists as maps *)

Section JSMap_facts.
Context {V : Type}.
Implicit Types (m : list (string * V)) (k : string) (v : V).

Lemma elem_of_Map_set m k v k' v' :
  NoDup m.*1 →
  (k', v') ∈ Map_set k v m ↔ (k' = k ∧ v' = v) ∨ (k' ≠ k ∧ (k', v') ∈ m).
Proof.
  induction m as [|[k0 v0] m IH]; simpl; intros Hnd.
  - rewrite list_elem_of_singleton, elem_of_nil. naive_solver.
  - apply NoDup_cons in Hnd as [Hnotin Hnd].
    case_decide as Hk; subst; rewrite !elem_of_cons; [|rewrite IH by done].
    + split; [|naive_solver].
      intros [[= -> ->]|Hin]; [by left|]. right. split; [|by right].
      intros ->. apply Hnotin. rewrite list_elem_of_fmap. by exists (k, v').
    + naive_solver.
Qed.

Lemma Map_set_keys_NoDup m k v : NoDup m.*1 → NoDup (Map_set k v m).*1.
Proof.
  induction m as [|[k0 v0] m IH]; simpl; intros Hnd.
  - apply NoDup_singleton.
  - apply NoDup_cons in Hnd as [Hnotin Hnd]. case_decide; subst; simpl.
    + by apply NoDup_cons.
    + apply NoDup_cons. split; [|by apply IH].
      rewrite list_elem_of_fmap. intros [[k1 v1] [-> Hin]].
      apply elem_of_Map_set in Hin as [[? _]|[_ Hin]]; [done| |done].
      apply Hnotin. rewrite list_elem_of_fmap. by exists (k1, v1).
Qed.

Lemma Map_get_Some m k v : NoDup m.*1 → Map_get k m = Some v ↔ (k, v) ∈ m.
Proof.
  induction m as [|[k0 v0] m IH]; simpl; intros Hnd.
  - rewrite elem_of_nil. naive_solver.
  - apply NoDup_cons in Hnd as [Hnotin Hnd]. rewrite elem_of_cons.
    case_decide; subst.
    + split; [naive_solver|]. intros [?|Hin]; [naive_solver|].
      destruct Hnotin. rewrite list_elem_of_fmap. by exists (k, v).
    + rewrite IH by done. naive_solver.
Qed.

Lemma Map_get_None m k : Map_get k m = None ↔ k ∉ m.*1.
Proof.
  induction m as [|[k0 v0] m IH]; simpl.
  - rewrite elem_of_nil. naive_solver.
  - rewrite not_elem_of_cons. case_decide; subst; [naive_solver|].
    rewrite IH. naive_solver.
Qed.

Lemma Map_set_fresh m k v : k ∉ m.*1 → Map_set k v m = m ++ [(k, v)].
Proof.
  induction m as [|[k0 v0] m IH]; simpl; [done|].
  rewrite not_elem_of_cons. intros [Hne Hnotin].
  rewrite decide_False by done. by rewrite IH.
Qed.

Lemma Map_set_keys_present m k v :
  k ∈ m.*1 → (Map_set k v m).*1 = m.*1.
Proof.
  induction m as [|[k0 v0] m IH]; simpl.
  - by rewrite elem_of_nil.
  - rewrite elem_of_cons. intros Hin. case_decide; subst; simpl; [done|].
    f_equal. apply IH. naive_solver.
Qed.

Lemma elem_of_Map_delete m k k' v' :
  (k', v') ∈ Map_delete k m ↔ k' ≠ k ∧ (k', v') ∈ m.
Proof. unfold Map_delete. by rewrite list_elem_of_filter. Qed.

Lemma Map_delete_keys_NoDup m k : NoDup m.*1 → NoDup (Map_delete k m).*1.
Proof.
  intros Hnd. unfold Map_delete.
  eapply sublist_NoDup; [exact Hnd|]. apply fmap_sublist, sublist_filter.
Qed.

Lemma Map_delete_absent m k : k ∉ m.*1 → Map_delete k m = m.
Proof.
  induction m as [|[k0 v0] m IH]; [done|]. simpl.
  rewrite not_elem_of_cons. intros [Hne Hnotin]. unfold Map_delete in *.
  rewrite filter_cons_True by (simpl; congruence). by rewrite IH.
Qed.

End JSMap_facts.

(** ** Room lookup *)

Lemma find_room_Some sid rooms room :
  find_room sid rooms = Some room →
  ∃ k, (k, room) ∈ rooms ∧ is_member sid room.
Proof.
  induction rooms as [|[k r] rooms IH]; simpl; [done|].
  case_decide.
  - intros [= <-]. exists k. split; [left|done].
  - intros [k' [Hin Hm]]%IH. exists k'. split; [by right|done].
Qed.

Lemma find_room_None sid rooms :
  find_room sid rooms = None ↔ ∀ k r, (k, r) ∈ rooms → ¬ is_member sid r.
Proof.
  induction rooms as [|[k r] rooms IH]; simpl.
  - split; [|done]. intros _ k r Hin. by apply elem_of_nil in Hin.
  - case_decide.
    + split; [done|]. intros Hall. destruct (Hall k r); [left|done].
    + rewrite IH. split.
      * intros Hall k' r' [[= -> ->]|Hin]%elem_of_cons; eauto.
      * intros Hall k' r' Hin. apply (Hall k'). by right.
Qed.

Lemma find_room_is_Some sid rooms k r :
  (k, r) ∈ rooms → is_member sid r → is_Some (find_room sid rooms).
Proof.
  intros Hin Hm. destruct (find_room sid rooms) eqn:E; [done|].
  rewrite find_room_None in E. by destruct (E k r).
Qed.

(** ** Properties of the waiting queue *)

Lemma filter_all {A} (P : A → Prop) `{∀ x, Decision (P x)} (l : list A) :
  Forall P l → filter P l = l.
Proof.
  induction 1 as [|x l Hx _ IH]; [done|].
  rewrite filter_cons_True by done. by rewrite IH.
Qed.

Lemma removeWaitingUser_absent sid cm :
  Forall (λ user, socketId user ≠ sid) (waitingUsers cm) →
  removeWaitingUser sid cm = cm.
Proof.
  intros Hall. unfold removeWaitingUser. rewrite filter_all by done.
  by destruct cm.
Qed.

(** C9: [removeWaitingUser] deletes every entry of the given connection id,
    not only the first one, keeps the other entries in their order, and
    touches nothing else; a queue without an entry for that id is left
    unchanged. *)
Theorem removeWaitingUser_removes_all (sid : string) (cm : ChatManager) :
  (∀ user, user ∈ waitingUsers (removeWaitingUser sid cm) → socketId user ≠ sid) ∧
  (∀ user, user ∈ waitingUsers cm → socketId user ≠ sid →
     user ∈ waitingUsers (removeWaitingUser sid cm)) ∧
  waitingUsers (removeWaitingUser sid cm) `sublist_of` waitingUsers cm ∧
  activeRooms (removeWaitingUser sid cm) = activeRooms cm ∧
  userSockets (removeWaitingUser sid cm) = userSockets cm ∧
  ((∀ user, user ∈ waitingUsers cm → socketId user ≠ sid) →
     removeWaitingUser sid cm = cm).
Proof.
  repeat split.
  - intros user Hin. by apply list_elem_of_filter in Hin as [? _].
  - intros user Hin Hne. by apply list_elem_of_filter.
  - apply sublist_filter.
  - intros Hall. apply removeWaitingUser_absent. by apply Forall_forall.
Qed.

(** ** Relay groups and deliveries *)

Lemma elem_of_group room (sk : gmap string Socket) c :
  c ∈ group room sk ↔ ∃ s, sk !! c = Some s ∧ room ∈ rooms s.
Proof.
  unfold group. rewrite list_elem_of_fmap. split.
  - intros [[c' s] [-> Hin]]. apply elem_of_map_to_list in Hin.
    apply map_lookup_filter_Some in Hin as [Hs Hroom]. by exists s.
  - intros [s [Hs Hroom]]. exists (c, s). split; [done|].
    apply elem_of_map_to_list. by apply map_lookup_filter_Some.
Qed.

Lemma NoDup_group room (sk : gmap string Socket) : NoDup (group room sk).
Proof. apply NoDup_fst_map_to_list. Qed.

Lemma received_app c (out1 out2 : list Delivery) :
  received c (out1 ++ out2) = received c out1 ++ received c out2.
Proof. unfold received. by rewrite filter_app, fmap_app. Qed.

Lemma received_socket_emit c sid ev :
  received c (socket_emit sid ev) = if decide (sid = c) then [ev] else [].
Proof.
  unfold received, socket_emit. rewrite filter_cons. simpl.
  by destruct (decide (sid = c)).
Qed.

Lemma received_cons c x ev (out : list Delivery) :
  received c ((x, ev) :: out) =
  if decide (x = c) then ev :: received c out else received c out.
Proof.
  unfold received. rewrite filter_cons. simpl. by destruct (decide (x = c)).
Qed.

Lemma received_fmap c ev (l : list string) :
  NoDup l →
  received c ((λ c', (c', ev)) <$> l) = if decide (c ∈ l) then [ev] else [].
Proof.
  induction l as [|x l IH]; intros Hnd.
  - by rewrite decide_False by apply not_elem_of_nil.
  - apply NoDup_cons in Hnd as [Hx Hnd]. rewrite fmap_cons, received_cons, IH by done.
    destruct (decide (x = c)) as [->|Hne].
    + rewrite (decide_True (P := c ∈ c :: l)) by left. by rewrite decide_False.
    + apply decide_ext. rewrite elem_of_cons. naive_solver.
Qed.

Lemma received_io_to c room ev (sk : gmap string Socket) :
  received c (io_to room ev sk) = if decide (c ∈ group room sk) then [ev] else [].
Proof. apply received_fmap, NoDup_group. Qed.

Lemma group_nil room (sk : gmap string Socket) :
  group room sk = [] ↔ ∀ c s, sk !! c = Some s → room ∉ rooms s.
Proof.
  split.
  - intros Hnil c s Hs Hroom.
    assert (c ∈ group room sk) as Hin by (apply elem_of_group; eauto).
    rewrite Hnil in Hin. by apply elem_of_nil in Hin.
  - intros Hall. apply elem_of_nil_inv. intros c [s [Hs Hroom]]%elem_of_group.
    by apply (Hall c s).
Qed.

Lemma name_free_spec name st :
  name_free name st = true ↔ ∀ c s, sockets st !! c = Some s → name ∉ rooms s.
Proof.
  unfold name_free. rewrite bool_decide_eq_true. apply group_nil.
Qed.

(** ** The waiting queue *)

Lemma findMatch_Some sid cm m cm' :
  findMatch sid cm = (Some m, cm') →
  m ∈ waitingUsers cm ∧ socketId m ≠ sid ∧
  cm' = removeWaitingUser (socketId m) (removeWaitingUser sid cm).
Proof.
  unfold findMatch.
  destruct (filter _ (waitingUsers cm)) as [|m' rest] eqn:E; [done|].
  intros [= -> <-].
  assert (m ∈ filter (λ user, socketId user ≠ sid) (waitingUsers cm)) as Hin
    by (rewrite E; left).
  apply list_elem_of_filter in Hin as [Hne Hin]. done.
Qed.

Lemma findMatch_None sid cm cm' :
  findMatch sid cm = (None, cm') →
  cm' = cm ∧ ∀ u, u ∈ waitingUsers cm → socketId u = sid.
Proof.
  unfold findMatch.
  destruct (filter _ (waitingUsers cm)) as [|m' rest] eqn:E; [|done].
  intros [= <-]. split; [done|]. intros u Hu.
  destruct (decide (socketId u = sid)) as [|Hne]; [done|].
  assert (u ∈ filter (λ user, socketId user ≠ sid) (waitingUsers cm)) as Hin
    by by apply list_elem_of_filter.
  rewrite E in Hin. by apply elem_of_nil in Hin.
Qed.

(** ** Preservation of the invariant *)

Lemma is_Some_lookup_alter {A} (f : A → A) (m : gmap string A) i j :
  is_Some (alter f i m !! j) ↔ is_Some (m !! j).
Proof.
  rewrite lookup_alter. case_decide; subst; [|done].
  by rewrite fmap_is_Some.
Qed.

Lemma inv_init : inv init.
Proof.
  split; simpl; try (intros; exfalso; eapply elem_of_nil; eassumption).
  - apply NoDup_nil_2.
  - intros c u Hu. by rewrite lookup_empty in Hu.
Qed.

(** A step that only removes rooms and waiting entries, or changes a room
    without touching its id and members, keeps the invariant. *)
Lemma inv_shrink st st' :
  inv st →
  NoDup (activeRooms (chatManager st')).*1 →
  (∀ k r', (k, r') ∈ activeRooms (chatManager st') →
     ∃ r, (k, r) ∈ activeRooms (chatManager st) ∧
          user1 r' = user1 r ∧ user2 r' = user2 r ∧ room_id r' = room_id r) →
  (∀ u, u ∈ waitingUsers (chatManager st') → u ∈ waitingUsers (chatManager st)) →
  (∀ c u, userSockets (chatManager st') !! c = Some u → socketId u = c) →
  (∀ k r' c, (k, r') ∈ activeRooms (chatManager st') → is_member c r' →
     is_Some (sockets st' !! c)) →
  (∀ u, u ∈ waitingUsers (chatManager st') → is_Some (sockets st' !! socketId u)) →
  inv st'.
Proof.
  intros Hinv Hnd Hrooms Hwait Hreg Hconn Hwconn.
  assert (∀ k r' c, (k, r') ∈ activeRooms (chatManager st') → is_member c r' →
            ∃ r, (k, r) ∈ activeRooms (chatManager st) ∧ is_member c r) as Hmem.
  { intros k r' c Hin Hm. destruct (Hrooms k r' Hin) as (r & Hr & H1 & H2 & _).
    exists r. split; [done|]. unfold is_member in *. by rewrite <- H1, <- H2. }
  split; try done.
  - intros k r' Hin. destruct (Hrooms k r' Hin) as (r & Hr & _ & _ & ->).
    by eapply inv_room_id.
  - intros k r' Hin. destruct (Hrooms k r' Hin) as (r & Hr & -> & -> & _).
    by eapply inv_distinct.
  - intros k1 r1 k2 r2 c Hin1 Hin2 Hm1 Hm2.
    destruct (Hmem _ _ _ Hin1 Hm1) as (r1' & ? & ?).
    destruct (Hmem _ _ _ Hin2 Hm2) as (r2' & ? & ?).
    by eapply (inv_one_room st).
  - intros u k r' Hu Hin Hm. destruct (Hmem _ _ _ Hin Hm) as (r & ? & ?).
    eapply (inv_waiting st); eauto.
Qed.

Lemma is_Some_lookup_insert {A} (m : gmap string A) i j x :
  is_Some (m !! j) → is_Some (<[i:=x]> m !! j).
Proof.
  intros Hj. rewrite lookup_insert. by case_decide.
Qed.

Lemma on_connection_inv sid loc clientIP st :
  inv st → inv (on_connection sid loc clientIP st).1.
Proof.
  intros Hinv. apply (inv_shrink st); simpl; try done.
  - apply Hinv.
  - intros k r Hin. by exists r.
  - apply Hinv.
  - intros k r c Hin Hm. eapply is_Some_lookup_insert, inv_members_connected; eauto.
  - intros u Hu. by eapply is_Some_lookup_insert, inv_waiting_connected.
Qed.

Lemma on_join_system_inv sid sock nick now st :
  inv st → inv (on_join_system sid sock nick now st).1.
Proof.
  intros Hinv. apply (inv_shrink st); simpl; try done; try apply Hinv.
  - intros k r Hin. by exists r.
  - intros c u. rewrite lookup_insert. case_decide; subst.
    + by intros [= <-].
    + apply Hinv.
Qed.

Lemma forward_to_partner_state sid ev st : (forward_to_partner sid ev st).1 = st.
Proof. unfold forward_to_partner. by destruct (getRoomBySocketId _ _). Qed.

Lemma on_initiate_call_state sid k st : (on_initiate_call sid k st).1 = st.
Proof. unfold on_initiate_call. by destruct (getRoomBySocketId _ _). Qed.

Lemma on_get_partner_location_state sid st : (on_get_partner_location sid st).1 = st.
Proof.
  unfold on_get_partner_location. destruct (getRoomBySocketId _ _); [|done].
  by destruct (getPartnerInfo _ _ _).
Qed.

Lemma addMessageToRoom_rooms roomId message now cm k r' :
  NoDup (activeRooms cm).*1 →
  (k, r') ∈ activeRooms (addMessageToRoom roomId message now cm) →
  ∃ r, (k, r) ∈ activeRooms cm ∧
       (r' = r ∨ k = roomId ∧ r' = push_message message now r).
Proof.
  intros Hnd. unfold addMessageToRoom.
  destruct (Map_get roomId (activeRooms cm)) as [room|] eqn:E; simpl.
  - apply Map_get_Some in E; [|done].
    intros [[-> ->]|[Hne Hin]]%elem_of_Map_set; [|by eauto|done].
    exists room. split; [done|]. by right.
  - intros Hin. exists r'. split; [done|]. by left.
Qed.

Lemma addMessageToRoom_keys roomId message now cm :
  (activeRooms (addMessageToRoom roomId message now cm)).*1 = (activeRooms cm).*1.
Proof.
  unfold addMessageToRoom.
  destruct (Map_get roomId (activeRooms cm)) as [room|] eqn:E; simpl; [|done].
  apply Map_set_keys_present. apply dec_stable. intros Hnotin.
  apply Map_get_None in Hnotin. congruence.
Qed.

Lemma on_send_inv sid data uuid now now' st :
  inv st → inv (on_send sid data uuid now now' st).1.
Proof.
  intros Hinv. unfold on_send.
  destruct (getRoomBySocketId sid (chatManager st)) as [room|]; [|done]. simpl.
  assert (∀ k r', (k, r') ∈ activeRooms
            (addMessageToRoom (room_id room) (make_message data uuid sid now) now'
               (chatManager st)) →
          ∃ r, (k, r) ∈ activeRooms (chatManager st) ∧
               user1 r' = user1 r ∧ user2 r' = user2 r ∧ room_id r' = room_id r) as Hrooms.
  { intros k r' Hin. apply addMessageToRoom_rooms in Hin as (r & Hr & [->|[_ ->]]);
      [by exists r|by exists r|apply Hinv]. }
  apply (inv_shrink st); simpl; try done; try apply Hinv.
  - rewrite addMessageToRoom_keys. apply Hinv.
  - unfold addMessageToRoom. by destruct (Map_get _ _).
  - unfold addMessageToRoom. destruct (Map_get _ _); apply Hinv.
  - intros k r' c Hin Hm. destruct (Hrooms k r' Hin) as (r & Hr & H1 & H2 & _).
    eapply (inv_members_connected st); [done..|].
    unfold is_member in *. by rewrite <- H1, <- H2.
  - intros u Hu. apply (inv_waiting_connected st); [done|].
    revert Hu. unfold addMessageToRoom. by destruct (Map_get _ _).
Qed.

Lemma on_stop_chat_inv sid st : inv st → inv (on_stop_chat sid st).1.
Proof.
  intros Hinv. unfold on_stop_chat, getRoomBySocketId. simpl.
  destruct (find_room sid (activeRooms (chatManager st))) as [room|] eqn:E; simpl.
  - apply (inv_shrink st); simpl; try done.
    + apply Map_delete_keys_NoDup, Hinv.
    + intros k r [_ Hin]%elem_of_Map_delete. by exists r.
    + intros u [_ Hu]%list_elem_of_filter. done.
    + apply Hinv.
    + intros k r c [_ Hin]%elem_of_Map_delete Hm. unfold socket_leave.
      apply is_Some_lookup_alter. by eapply (inv_members_connected st).
    + intros u [_ Hu]%list_elem_of_filter. unfold socket_leave.
      apply is_Some_lookup_alter. by apply (inv_waiting_connected st).
  - apply (inv_shrink st); simpl; try done; try apply Hinv.
    + intros k r Hin. by exists r.
    + intros u [_ Hu]%list_elem_of_filter. done.
    + intros u [_ Hu]%list_elem_of_filter. by apply (inv_waiting_connected st).
Qed.

Lemma on_disconnect_inv sid st : inv st → inv (on_disconnect sid st).1.
Proof.
  intros Hinv. unfold on_disconnect, getRoomBySocketId. simpl.
  assert (∀ c u, delete sid (userSockets (chatManager st)) !! c = Some u →
            socketId u = c) as Hreg.
  { intros c u [_ Hu]%lookup_delete_Some. by apply (inv_registry st). }
  assert (∀ u, u ∈ filter (λ user, socketId user ≠ sid) (waitingUsers (chatManager st)) →
            is_Some (delete sid (sockets st) !! socketId u)) as Hwconn.
  { intros u [Hne Hu]%list_elem_of_filter. rewrite lookup_delete_ne by done.
    by apply (inv_waiting_connected st). }
  destruct (find_room sid (activeRooms (chatManager st))) as [room|] eqn:E; simpl.
  - apply find_room_Some in E as (k0 & Hroom & Hsid).
    pose proof (inv_room_id st Hinv _ _ Hroom) as Hid.
    apply (inv_shrink st); simpl; try done.
    + apply Map_delete_keys_NoDup, Hinv.
    + intros k r [_ Hin]%elem_of_Map_delete. by exists r.
    + intros u [_ Hu]%list_elem_of_filter. done.
    + intros k r c [Hne Hin]%elem_of_Map_delete Hm.
      rewrite lookup_delete_ne; [by eapply (inv_members_connected st)|].
      intros <-. apply Hne. rewrite Hid.
      by apply (inv_one_room st Hinv k r k0 room sid).
  - rewrite find_room_None in E.
    apply (inv_shrink st); simpl; try done; try apply Hinv.
    + intros k r Hin. by exists r.
    + intros u [_ Hu]%list_elem_of_filter. done.
    + intros k r c Hin Hm.
      rewrite lookup_delete_ne; [by eapply (inv_members_connected st)|].
      intros <-. by apply (E k r).
Qed.

Lemma on_find_partner_inv Math sid uuid now st :
  is_Some (sockets st !! sid) →
  inv st → inv (on_find_partner Math sid uuid now st).1.
Proof.
  intros Hsid Hinv. unfold on_find_partner.
  destruct (userSockets (chatManager st) !! sid) as [userInfo|] eqn:Hreg; [|done].
  apply (inv_registry st Hinv) in Hreg.
  unfold getRoomBySocketId.
  destruct (find_room sid (activeRooms (chatManager st))) as [?|] eqn:Hroom; [done|].
  rewrite find_room_None in Hroom.
  destruct (findMatch sid (chatManager st)) as [[m|] cm1] eqn:Hmatch.
  - apply findMatch_Some in Hmatch as (Hm & Hne & ->). simpl.
    set (room := {| room_id := uuid; user1 := userInfo; user2 := m; createdAt := now;
                    messages := []; distance := _ |}).
    assert (∀ c, is_member c room ↔ c = sid ∨ c = socketId m) as Hmem.
    { intros c. unfold is_member. simpl. rewrite Hreg. naive_solver. }
    assert (∀ k r, (k, r) ∈ Map_set uuid room (activeRooms (chatManager st)) →
              (k = uuid ∧ r = room) ∨ (k, r) ∈ activeRooms (chatManager st)) as Hin.
    { intros k r [?|[_ ?]]%elem_of_Map_set; [by left|by right|apply Hinv]. }
    assert (∀ k r c, (k, r) ∈ activeRooms (chatManager st) → is_member c r →
              c ≠ sid ∧ c ≠ socketId m) as Hold.
    { intros k r c Hr Hc. split; intros ->.
      - by apply (Hroom k r).
      - by apply (inv_waiting st Hinv m k r). }
    split; simpl.
    + apply Map_set_keys_NoDup, Hinv.
    + intros k r [[-> ->]|Hr]%Hin; [done|]. by apply (inv_room_id st).
    + intros k r [[-> ->]|Hr]%Hin; [simpl; congruence|]. by apply (inv_distinct st Hinv k).
    + intros k1 r1 k2 r2 c [[-> ->]|Hr1]%Hin [[-> ->]|Hr2]%Hin Hc1 Hc2; [done| | |].
      * apply Hmem in Hc1. destruct (Hold _ _ _ Hr2 Hc2). naive_solver.
      * apply Hmem in Hc2. destruct (Hold _ _ _ Hr1 Hc1). naive_solver.
      * by apply (inv_one_room st Hinv k1 r1 k2 r2 c).
    + intros k r c Hr Hc. unfold socket_join. rewrite !is_Some_lookup_alter.
      apply Hin in Hr as [[-> ->]|Hr].
      * apply Hmem in Hc as [->| ->]; [done|]. by apply (inv_waiting_connected st).
      * by apply (inv_members_connected st Hinv k r).
    + intros u k r [Hu1 [Hu2 Hu]%list_elem_of_filter]%list_elem_of_filter Hr Hc.
      apply Hin in Hr as [[-> ->]|Hr].
      * apply Hmem in Hc. naive_solver.
      * by apply (inv_waiting st Hinv u k r).
    + intros u [_ [_ Hu]%list_elem_of_filter]%list_elem_of_filter.
      unfold socket_join. rewrite !is_Some_lookup_alter.
      by apply (inv_waiting_connected st).
    + apply Hinv.
  - apply findMatch_None in Hmatch as [-> _]. split; simpl; try apply Hinv.
    + intros u k r [Hu| ->%list_elem_of_singleton]%elem_of_app Hr; simpl.
      * by apply (inv_waiting st Hinv u k r).
      * rewrite Hreg. by apply (Hroom k r).
    + intros u [Hu| ->%list_elem_of_singleton]%elem_of_app; simpl.
      * by apply (inv_waiting_connected st).
      * by rewrite Hreg.
Qed.

Lemma dispatch_inv Math sid ev st : inv st → inv (dispatch Math sid ev st).1.
Proof.
  intros Hinv. unfold dispatch.
  destruct (sockets st !! sid) as [sock|] eqn:Hsock.
  - destruct ev; try done.
    + by apply on_join_system_inv.
    + apply on_find_partner_inv; [by rewrite Hsock|done].
    + by apply on_send_inv.
    + by rewrite on_get_partner_location_state.
    + by apply on_stop_chat_inv.
    + by rewrite on_initiate_call_state.
    + unfold on_end_call. by rewrite forward_to_partner_state.
    + unfold on_webrtc. by rewrite forward_to_partner_state.
    + unfold on_typing. by rewrite forward_to_partner_state.
    + by apply on_disconnect_inv.
  - destruct ev; try done. by apply on_connection_inv.
Qed.

Lemma run_app Math evs1 evs2 st :
  run Math (evs1 ++ evs2) st = run Math evs2 (run Math evs1 st).
Proof. unfold run. by rewrite foldl_app. Qed.

Lemma run_inv_from Math evs st : inv st → inv (run Math evs st).
Proof.
  revert st. induction evs as [|[sid ev] evs IH]; intros st Hinv; [done|].
  simpl. by apply IH, dispatch_inv.
Qed.

Lemma run_inv Math evs : inv (run Math evs init).
Proof. apply run_inv_from, inv_init. Qed.

(** ** Preservation of the relay-group invariant *)

Lemma relay_inv_init : relay_inv init.
Proof.
  split; simpl.
  - intros c s Hs. by rewrite lookup_empty in Hs.
  - intros c c' s Hs. by rewrite lookup_empty in Hs.
  - intros k r c s Hin. by apply elem_of_nil in Hin.
Qed.

(** A step that only takes sockets away, or takes a socket out of groups
    that are not its own and not the group of a remaining room, keeps the
    invariant of the relay groups. *)
Lemma relay_inv_shrink st st' :
  relay_inv st →
  (∀ c s', sockets st' !! c = Some s' →
     ∃ s, sockets st !! c = Some s ∧ rooms s' ⊆ rooms s ∧ c ∈ rooms s' ∧
          ∀ k r, (k, r) ∈ activeRooms (chatManager st') → k ∈ rooms s → k ∈ rooms s') →
  (∀ k r', (k, r') ∈ activeRooms (chatManager st') →
     ∃ r, (k, r) ∈ activeRooms (chatManager st) ∧
          user1 r' = user1 r ∧ user2 r' = user2 r) →
  relay_inv st'.
Proof.
  intros Hrel Hsock Hrooms. split.
  - intros c s' Hs'. by destruct (Hsock c s' Hs') as (s & _ & _ & ? & _).
  - intros c c' s' Hs' Hc' [s1' Hs1'].
    destruct (Hsock c s' Hs') as (s & Hs & Hsub & _).
    destruct (Hsock c' s1' Hs1') as (s1 & Hs1 & _).
    apply (relay_private st Hrel c c' s); [done|by apply Hsub|by rewrite Hs1].
  - intros k r' c s' Hin Hs'.
    destruct (Hsock c s' Hs') as (s & Hs & Hsub & _ & Hkeep).
    destruct (Hrooms k r' Hin) as (r & Hr & H1 & H2).
    assert (is_member c r' ↔ is_member c r) as ->
      by (unfold is_member; by rewrite H1, H2).
    rewrite <- (relay_room st Hrel k r c s Hr Hs). split; [apply Hsub|by apply (Hkeep k r')].
Qed.

Lemma lookup_socket_join x room (sk : gmap string Socket) c :
  socket_join x room sk !! c =
  (λ s, if decide (x = c) then join room s else s) <$> sk !! c.
Proof.
  unfold socket_join. rewrite lookup_alter. case_decide; subst.
  - by destruct (sk !! c).
  - by destruct (sk !! c).
Qed.

Lemma on_connection_relay_inv sid loc clientIP st :
  sockets st !! sid = None → name_free sid st = true →
  inv st → relay_inv st → relay_inv (on_connection sid loc clientIP st).1.
Proof.
  intros Hnone Hfree Hinv Hrel.
  pose proof (proj1 (name_free_spec _ _) Hfree) as Hfree'. clear Hfree.
  rename Hfree' into Hfree. split; simpl.
  - intros c s. rewrite lookup_insert. case_decide; subst.
    + intros [= <-]. simpl. set_solver.
    + apply Hrel.
  - intros c c' s Hs Hc' Hsome.
    destruct (decide (sid = c)) as [->|Hne].
    + rewrite lookup_insert_eq in Hs. injection Hs as <-. simpl in Hc'. set_solver.
    + rewrite lookup_insert_ne in Hs by done.
      destruct (decide (sid = c')) as [->|Hne'].
      * by destruct (Hfree c s Hs).
      * rewrite lookup_insert_ne in Hsome by done.
        by apply (relay_private st Hrel c c' s).
  - intros k r c s Hr. rewrite lookup_insert. case_decide; subst.
    + intros [= <-]. simpl. split.
      * intros ->%elem_of_singleton.
        assert (is_member (socketId (user1 r)) r) as Hm by by left.
        destruct (inv_members_connected st Hinv _ _ _ Hr Hm) as [s1 Hs1].
        destruct (Hfree _ _ Hs1). by apply (relay_room st Hrel c r _ s1 Hr Hs1).
      * intros Hm. destruct (inv_members_connected st Hinv _ _ _ Hr Hm) as [s1 Hs1].
        congruence.
    + by apply (relay_room st Hrel).
Qed.

Lemma on_send_relay_inv sid data uuid now now' st :
  inv st → relay_inv st → relay_inv (on_send sid data uuid now now' st).1.
Proof.
  intros Hinv Hrel. unfold on_send.
  destruct (getRoomBySocketId sid (chatManager st)) as [room|]; [|done]. simpl.
  apply (relay_inv_shrink st); simpl; [done| |].
  - intros c s Hs. exists s. repeat split; [done|done|by apply (relay_own st)|done].
  - intros k r' Hin. apply addMessageToRoom_rooms in Hin as (r & Hr & [->|[_ ->]]);
      [by exists r|by exists r|apply Hinv].
Qed.

(** The relay group of an active room is not the group of a socket. *)
Lemma room_id_not_socket st k r :
  inv st → relay_inv st → (k, r) ∈ activeRooms (chatManager st) →
  sockets st !! k = None.
Proof.
  intros Hinv Hrel Hr. destruct (sockets st !! k) as [s|] eqn:Hs; [|done].
  exfalso. apply (inv_distinct st Hinv k r Hr).
  assert (∀ c, is_member c r → c = k) as Hall.
  { intros c Hc. destruct (inv_members_connected st Hinv k r c Hr Hc) as [sc Hsc].
    symmetry. apply (relay_private st Hrel c k sc); [done| |by rewrite Hs].
    by apply (relay_room st Hrel k r c sc). }
  rewrite (Hall (socketId (user1 r))) by by left.
  rewrite (Hall (socketId (user2 r))) by by right. done.
Qed.

Lemma on_stop_chat_relay_inv sid st :
  inv st → relay_inv st → relay_inv (on_stop_chat sid st).1.
Proof.
  intros Hinv Hrel. unfold on_stop_chat, getRoomBySocketId. simpl.
  destruct (find_room sid (activeRooms (chatManager st))) as [room|] eqn:E; simpl.
  - apply find_room_Some in E as (k0 & Hroom & Hsid).
    rewrite (inv_room_id st Hinv _ _ Hroom).
    pose proof (room_id_not_socket st k0 room Hinv Hrel Hroom) as Hk0.
    apply (relay_inv_shrink st); simpl; [done| |].
    + intros c s'. unfold socket_leave. rewrite lookup_alter.
      case_decide; subst.
      * destruct (sockets st !! c) as [s|] eqn:Hs; [|done]. intros [= <-].
        exists s. simpl. repeat split; [set_solver| |].
        -- apply elem_of_difference. split; [by apply (relay_own st)|].
           intros ->%elem_of_singleton. congruence.
        -- intros k r [Hne _]%elem_of_Map_delete Hk. set_solver.
      * intros Hs. exists s'. repeat split; [done|done|by apply (relay_own st)|done].
    + intros k r [_ Hin]%elem_of_Map_delete. by exists r.
  - apply (relay_inv_shrink st); simpl; [done| |].
    + intros c s Hs. exists s. repeat split; [done|done|by apply (relay_own st)|done].
    + intros k r Hin. by exists r.
Qed.

Lemma on_disconnect_relay_inv sid st :
  relay_inv st → relay_inv (on_disconnect sid st).1.
Proof.
  intros Hrel. unfold on_disconnect, getRoomBySocketId. simpl.
  assert (∀ c s', delete sid (sockets st) !! c = Some s' →
            ∃ s, sockets st !! c = Some s ∧ rooms s' ⊆ rooms s ∧ c ∈ rooms s' ∧
                 ∀ k : string, k ∈ rooms s → k ∈ rooms s') as Hsock.
  { intros c s [_ Hs]%lookup_delete_Some. exists s.
    repeat split; [done|done|by apply (relay_own st)|done]. }
  destruct (find_room sid (activeRooms (chatManager st))) as [room|] eqn:E; simpl.
  - apply (relay_inv_shrink st); simpl; [done| |].
    + intros c s' Hs'. destruct (Hsock c s' Hs') as (s & ? & ? & ? & ?).
      exists s. repeat split; auto.
    + intros k r [_ Hin]%elem_of_Map_delete. by exists r.
  - apply (relay_inv_shrink st); simpl; [done| |].
    + intros c s' Hs'. destruct (Hsock c s' Hs') as (s & ? & ? & ? & ?).
      exists s. repeat split; auto.
    + intros k r Hin. by exists r.
Qed.

Lemma on_join_system_relay_inv sid sock nick now st :
  relay_inv st → relay_inv (on_join_system sid sock nick now st).1.
Proof. intros Hrel. split; simpl; apply Hrel. Qed.

Lemma on_find_partner_relay_inv Math sid uuid now st :
  name_free uuid st = true →
  inv st → relay_inv st → relay_inv (on_find_partner Math sid uuid now st).1.
Proof.
  intros Hfree Hinv Hrel.
  pose proof (proj1 (name_free_spec _ _) Hfree) as Hfree'. clear Hfree.
  unfold on_find_partner.
  destruct (userSockets (chatManager st) !! sid) as [userInfo|] eqn:Hreg; [|done].
  apply (inv_registry st Hinv) in Hreg.
  destruct (getRoomBySocketId sid (chatManager st)); [done|].
  destruct (findMatch sid (chatManager st)) as [[m|] cm1] eqn:Hmatch.
  - apply findMatch_Some in Hmatch as (Hm & Hne & ->). simpl.
    set (room := {| room_id := uuid; user1 := userInfo; user2 := m; createdAt := now;
                    messages := []; distance := _ |}).
    assert (∀ c s', socket_join (socketId m) uuid (socket_join sid uuid (sockets st)) !! c
                      = Some s' →
              ∃ s, sockets st !! c = Some s ∧
                   (∀ k, k ∈ rooms s' ↔ (k = uuid ∧ is_member c room) ∨ k ∈ rooms s)) as Hsock.
    { intros c s'. rewrite !lookup_socket_join.
      destruct (sockets st !! c) as [s|] eqn:Hs; [|done]. simpl. intros [= <-].
      exists s. split; [done|]. intros k. pose proof (Hfree' c s Hs).
      unfold is_member. simpl. rewrite Hreg.
      repeat case_decide; subst; simpl; set_solver. }
    split; simpl.
    + intros c s' Hs'. destruct (Hsock c s' Hs') as (s & Hs & Hk).
      apply Hk. right. by apply (relay_own st).
    + intros c c' s' Hs' Hc' [s1' Hs1'].
      destruct (Hsock c s' Hs') as (s & Hs & Hk).
      destruct (Hsock c' s1' Hs1') as (s1 & Hs1 & _).
      apply Hk in Hc' as [[-> _]|Hc'].
      * destruct (Hfree' uuid s1 Hs1). by apply (relay_own st).
      * apply (relay_private st Hrel c c' s); [done|done|by rewrite Hs1].
    + intros k r c s' Hr Hs'. destruct (Hsock c s' Hs') as (s & Hs & Hk).
      rewrite Hk. apply elem_of_Map_set in Hr as [[-> ->]|[Hne' Hr]]; [| |apply Hinv].
      * pose proof (Hfree' c s Hs). naive_solver.
      * rewrite <- (relay_room st Hrel k r c s Hr Hs). naive_solver.
  - apply findMatch_None in Hmatch as [-> _]. split; simpl; apply Hrel.
Qed.

Lemma dispatch_relay_inv Math sid ev st :
  id_fresh ev sid st = true →
  inv st → relay_inv st → relay_inv (dispatch Math sid ev st).1.
Proof.
  intros Hfresh Hinv Hrel. unfold dispatch.
  destruct (sockets st !! sid) as [sock|] eqn:Hsock.
  - destruct ev; try done.
    + by apply on_join_system_relay_inv.
    + by apply on_find_partner_relay_inv.
    + by apply on_send_relay_inv.
    + by rewrite on_get_partner_location_state.
    + by apply on_stop_chat_relay_inv.
    + by rewrite on_initiate_call_state.
    + unfold on_end_call. by rewrite forward_to_partner_state.
    + unfold on_webrtc. by rewrite forward_to_partner_state.
    + unfold on_typing. by rewrite forward_to_partner_state.
    + by apply on_disconnect_relay_inv.
  - destruct ev; try done. by apply on_connection_relay_inv.
Qed.

Lemma run_relay_inv_from Math evs st :
  ids_fresh Math evs st = true →
  inv st → relay_inv st → relay_inv (run Math evs st).
Proof.
  revert st. induction evs as [|[sid ev] evs IH]; intros st Hfresh Hinv Hrel; [done|].
  simpl in *. apply andb_prop in Hfresh as [H1 H2].
  apply IH; [done|by apply dispatch_inv|by apply dispatch_relay_inv].
Qed.

Lemma run_relay_inv Math evs :
  ids_fresh Math evs init = true → relay_inv (run Math evs init).
Proof. intros. apply run_relay_inv_from; [done|apply inv_init|apply relay_inv_init]. Qed.

(** ** Room members and waiting sockets are registered *)

Lemma registered_init : registered init.
Proof. split; simpl; intros; exfalso; eapply elem_of_nil; eassumption. Qed.

Lemma registered_shrink st st' :
  registered st →
  (∀ k r', (k, r') ∈ activeRooms (chatManager st') →
     ∃ r, (k, r) ∈ activeRooms (chatManager st) ∧
          user1 r' = user1 r ∧ user2 r' = user2 r) →
  (∀ u, u ∈ waitingUsers (chatManager st') → u ∈ waitingUsers (chatManager st)) →
  (∀ c, is_Some (userSockets (chatManager st) !! c) →
     (∃ k r, (k, r) ∈ activeRooms (chatManager st') ∧ is_member c r) ∨
     (∃ u, u ∈ waitingUsers (chatManager st') ∧ socketId u = c) →
     is_Some (userSockets (chatManager st') !! c)) →
  registered st'.
Proof.
  intros Hreg Hrooms Hwait Hkeep. split.
  - intros k r' c Hin Hc. destruct (Hrooms k r' Hin) as (r & Hr & H1 & H2).
    apply Hkeep; [|left; eauto]. apply (reg_members st Hreg k r c Hr).
    unfold is_member in *. by rewrite <- H1, <- H2.
  - intros u Hu. apply Hkeep; [|right; eauto].
    by apply (reg_waiting st Hreg), Hwait.
Qed.

Lemma on_find_partner_registered Math sid uuid now st :
  inv st → registered st → registered (on_find_partner Math sid uuid now st).1.
Proof.
  intros Hinv Hreg. unfold on_find_partner.
  destruct (userSockets (chatManager st) !! sid) as [userInfo|] eqn:Hsid; [|done].
  pose proof (inv_registry st Hinv _ _ Hsid) as Hid.
  destruct (getRoomBySocketId sid (chatManager st)); [done|].
  destruct (findMatch sid (chatManager st)) as [[m|] cm1] eqn:Hmatch.
  - apply findMatch_Some in Hmatch as (Hm & Hne & ->). split; simpl.
    + intros k r c [[-> ->]|[_ Hr]]%elem_of_Map_set Hc; [| |apply Hinv].
      * destruct Hc as [<-|<-]; simpl; [by rewrite Hid, Hsid|].
        by apply (reg_waiting st).
      * by apply (reg_members st Hreg k r).
    + intros u [_ [_ Hu]%list_elem_of_filter]%list_elem_of_filter.
      by apply (reg_waiting st).
  - apply findMatch_None in Hmatch as [-> _]. split; simpl; [apply Hreg|].
    intros u [Hu| ->%list_elem_of_singleton]%elem_of_app; simpl.
    + by apply (reg_waiting st).
    + by rewrite Hid, Hsid.
Qed.

Lemma on_disconnect_registered sid st :
  inv st → registered st → registered (on_disconnect sid st).1.
Proof.
  intros Hinv Hreg. unfold on_disconnect, getRoomBySocketId. simpl.
  destruct (find_room sid (activeRooms (chatManager st))) as [room|] eqn:E; simpl.
  - apply find_room_Some in E as (k0 & Hroom & Hsid).
    pose proof (inv_room_id st Hinv _ _ Hroom) as Hid.
    apply (registered_shrink st); simpl; [done| | |].
    + intros k r [_ Hin]%elem_of_Map_delete. by exists r.
    + intros u [_ Hu]%list_elem_of_filter. done.
    + intros c Hc Hused. rewrite lookup_delete_ne; [done|]. intros <-.
      destruct Hused as [(k & r & [Hne Hr]%elem_of_Map_delete & Hm)|(u & Hu & Heq)].
      * apply Hne. rewrite Hid. by apply (inv_one_room st Hinv k r k0 room sid).
      * by apply list_elem_of_filter in Hu as [? _].
  - rewrite find_room_None in E.
    apply (registered_shrink st); simpl; [done| | |].
    + intros k r Hin. by exists r.
    + intros u [_ Hu]%list_elem_of_filter. done.
    + intros c Hc Hused. rewrite lookup_delete_ne; [done|]. intros <-.
      destruct Hused as [(k & r & Hr & Hm)|(u & Hu & Heq)].
      * by apply (E k r).
      * by apply list_elem_of_filter in Hu as [? _].
Qed.

Lemma dispatch_registered Math sid ev st :
  inv st → registered st → registered (dispatch Math sid ev st).1.
Proof.
  intros Hinv Hreg. unfold dispatch.
  destruct (sockets st !! sid) as [sock|] eqn:Hsock.
  - destruct ev; try done.
    + apply (registered_shrink st); simpl; [done| |done|].
      * intros k r Hr. by exists r.
      * intros c Hc _. by apply is_Some_lookup_insert.
    + by apply on_find_partner_registered.
    + unfold on_send.
      destruct (getRoomBySocketId sid (chatManager st)) as [room|]; [|done].
      apply (registered_shrink st); simpl; [done| | |].
      * intros k r' Hin. apply addMessageToRoom_rooms in Hin as (r & Hr & [->|[_ ->]]);
          [by exists r|by exists r|apply Hinv].
      * unfold addMessageToRoom. by destruct (Map_get _ _).
      * unfold addMessageToRoom. by destruct (Map_get _ _).
    + by rewrite on_get_partner_location_state.
    + unfold on_stop_chat, getRoomBySocketId. simpl.
      destruct (find_room sid (activeRooms (chatManager st))) as [room|]; simpl.
      * apply (registered_shrink st); simpl; [done| | |done].
        -- intros k r [_ Hin]%elem_of_Map_delete. by exists r.
        -- intros u [_ Hu]%list_elem_of_filter. done.
      * apply (registered_shrink st); simpl; [done| | |done].
        -- intros k r Hin. by exists r.
        -- intros u [_ Hu]%list_elem_of_filter. done.
    + by rewrite on_initiate_call_state.
    + unfold on_end_call. by rewrite forward_to_partner_state.
    + unfold on_webrtc. by rewrite forward_to_partner_state.
    + unfold on_typing. by rewrite forward_to_partner_state.
    + by apply on_disconnect_registered.
  - destruct ev; try done. simpl. split; apply Hreg.
Qed.

Lemma run_registered Math evs : registered (run Math evs init).
Proof.
  assert (∀ st, inv st → registered st → registered (run Math evs st)) as Hgen.
  { induction evs as [|[sid ev] evs IH]; intros st Hinv Hreg; [done|].
    simpl. apply IH; [by apply dispatch_inv|by apply dispatch_registered]. }
  apply Hgen; [apply inv_init|apply registered_init].
Qed.

(** ** Rooms are exclusive pairs *)

(** C1: after any sequence of events (connections, join-system,
    find-partner and all the others), no connection id is a member of two
    active rooms, so no two rooms share a member; the two members of a room
    are distinct; and a find-partner from a connection that is in a room is
    answered by an error to that connection and leaves the state as it
    was. *)
Theorem rooms_are_exclusive_pairs (Math : MathLib) (evs : list (string * Inbound)) :
  let st := run Math evs init in
  (∀ i j ki ri kj rj c,
     activeRooms (chatManager st) !! i = Some (ki, ri) →
     activeRooms (chatManager st) !! j = Some (kj, rj) →
     is_member c ri → is_member c rj → i = j) ∧
  (∀ k r, (k, r) ∈ activeRooms (chatManager st) →
     socketId (user1 r) ≠ socketId (user2 r)) ∧
  (∀ sid uuid now room,
     getRoomBySocketId sid (chatManager st) = Some room →
     dispatch Math sid (ev_find_partner uuid now) st =
       (st, [(sid, error "Already in a chat room")])).
Proof.
  intros st. pose proof (run_inv Math evs) as Hinv.
  pose proof (run_registered Math evs) as Hreg. fold st in Hinv, Hreg.
  split; [|split].
  - intros i j ki ri kj rj c Hi Hj Hci Hcj.
    assert (ki = kj) as <-.
    { eapply (inv_one_room st Hinv ki ri kj rj c); eauto using list_elem_of_lookup_2. }
    apply (NoDup_lookup _ i j ki (inv_keys st Hinv)).
    + by rewrite list_lookup_fmap, Hi.
    + by rewrite list_lookup_fmap, Hj.
  - apply Hinv.
  - intros sid uuid now room Hroom. unfold getRoomBySocketId in Hroom.
    pose proof Hroom as (k & Hin & Hm)%find_room_Some.
    destruct (inv_members_connected st Hinv k room sid Hin Hm) as [sock Hsock].
    destruct (reg_members st Hreg k room sid Hin Hm) as [userInfo Huser].
    unfold dispatch. rewrite Hsock. unfold on_find_partner, getRoomBySocketId.
    by rewrite Huser, Hroom.
Qed.

Lemma rooms_are_exclusive_pairs_witness :
  dispatch no_Math "A" (ev_find_partner "room-2" 5) (run no_Math paired init) =
    (run no_Math paired init, [("A", error "Already in a chat room")]).
Proof.
  pose proof (rooms_are_exclusive_pairs no_Math paired) as (_ & _ & H).
  eapply H. reflexivity.
Defined.

(** ** Match selection *)

Lemma filter_head_split {A} (P : A → Prop) `{∀ x, Decision (P x)} (l : list A) x rest :
  filter P l = x :: rest →
  ∃ pre post, l = pre ++ x :: post ∧ Forall (λ y, ¬ P y) pre ∧ P x ∧
              rest = filter P post.
Proof.
  induction l as [|y l IH]; [done|]. rewrite filter_cons. case_decide as Hy.
  - intros [= -> <-]. exists [], l. by repeat split.
  - intros (pre & post & -> & Hpre & Hx & Hrest)%IH.
    exists (y :: pre), post. repeat split; [|done..]. by constructor.
Qed.

(** C8: [findMatch] returns the earliest entry of the queue whose
    connection id differs from the requester's, and the queue it leaves has
    no entry of the returned id; it returns nothing, and leaves the queue as
    it is, exactly when every entry is the requester's own. *)
Theorem findMatch_fifo (currentSocketId : string) (cm : ChatManager) :
  match findMatch currentSocketId cm with
  | (Some matchedUser, cm') =>
      socketId matchedUser ≠ currentSocketId ∧
      (∃ pre post,
         waitingUsers cm = pre ++ matchedUser :: post ∧
         Forall (λ user, socketId user = currentSocketId) pre) ∧
      (∀ user, user ∈ waitingUsers cm' → socketId user ≠ socketId matchedUser) ∧
      waitingUsers cm' `sublist_of` waitingUsers cm
  | (None, cm') =>
      cm' = cm ∧ Forall (λ user, socketId user = currentSocketId) (waitingUsers cm)
  end.
Proof.
  destruct (findMatch currentSocketId cm) as [[m|] cm'] eqn:E.
  - pose proof E as (Hin & Hne & ->)%findMatch_Some. unfold findMatch in E.
    destruct (filter _ (waitingUsers cm)) as [|m' rest] eqn:Hf; [done|].
    injection E as -> _.
    apply filter_head_split in Hf as (pre & post & Hw & Hpre & _ & _).
    repeat split; [done| | |].
    + exists pre, post. split; [done|]. eapply Forall_impl; [exact Hpre|].
      intros user Hu. simpl in Hu. by apply dec_stable.
    + intros user [? _]%list_elem_of_filter. done.
    + simpl. etrans; apply sublist_filter.
  - apply findMatch_None in E as [-> Hall]. split; [done|]. by apply Forall_forall.
Qed.

(** ** Requests that find nobody to pair with *)

Lemma with_chatManager_id st : with_chatManager (chatManager st) st = st.
Proof. by destruct st. Qed.

Lemma findMatch_alone sid cm :
  Forall (λ user, socketId user = sid) (waitingUsers cm) →
  findMatch sid cm = (None, cm).
Proof.
  intros Hall. unfold findMatch.
  destruct (filter _ (waitingUsers cm)) as [|m rest] eqn:E; [done|].
  assert (m ∈ filter (λ user, socketId user ≠ sid) (waitingUsers cm)) as Hin
    by (rewrite E; left).
  apply list_elem_of_filter in Hin as [Hne Hin].
  rewrite Forall_forall in Hall. by destruct (Hne (Hall m Hin)).
Qed.

Lemma on_find_partner_alone Math sid userInfo uuid now st :
  userSockets (chatManager st) !! sid = Some userInfo →
  getRoomBySocketId sid (chatManager st) = None →
  Forall (λ user, socketId user = sid) (waitingUsers (chatManager st)) →
  on_find_partner Math sid uuid now st =
    (with_chatManager (addWaitingUser sid userInfo now (chatManager st)) st,
     [(sid, searching_partner)]).
Proof.
  intros Hreg Hroom Hall. unfold on_find_partner.
  by rewrite Hreg, Hroom, findMatch_alone.
Qed.

(** C3, amended: in a state reached by any sequence of events, when a
    connected and registered socket [A] that is in no room sends
    find-partner while the queue is empty, one entry for [A] is enqueued and
    [A] receives searching-partner; a second find-partner from [A] is not
    rejected: [A] receives searching-partner again and a second entry for
    [A] is appended to the queue. *)
Theorem find_partner_alone_enqueues (Math : MathLib) (evs : list (string * Inbound))
    (A : string) (uA : User) (uuid uuid' : string) (now now' : Z) :
  let st := run Math evs init in
  is_Some (sockets st !! A) →
  userSockets (chatManager st) !! A = Some uA →
  getRoomBySocketId A (chatManager st) = None →
  waitingUsers (chatManager st) = [] →
  let r1 := dispatch Math A (ev_find_partner uuid now) st in
  let r2 := dispatch Math A (ev_find_partner uuid' now') r1.1 in
  socketId (waiting_entry A uA now) = A ∧
  socketId (waiting_entry A uA now') = A ∧
  waitingUsers (chatManager r1.1) = [waiting_entry A uA now] ∧
  r1.2 = [(A, searching_partner)] ∧
  waitingUsers (chatManager r2.1) = [waiting_entry A uA now; waiting_entry A uA now'] ∧
  r2.2 = [(A, searching_partner)] ∧
  activeRooms (chatManager r2.1) = activeRooms (chatManager st).
Proof.
  intros st [sock Hsock] Hreg Hroom Hwait r1 r2.
  pose proof (inv_registry st (run_inv Math evs) A uA Hreg) as Hid.
  assert (r1 = (with_chatManager (addWaitingUser A uA now (chatManager st)) st,
                [(A, searching_partner)])) as Hr1.
  { unfold r1, dispatch. rewrite Hsock. apply on_find_partner_alone; [done..|].
    rewrite Hwait. constructor. }
  assert (r2 = (with_chatManager (addWaitingUser A uA now' (chatManager r1.1)) r1.1,
                [(A, searching_partner)])) as Hr2.
  { unfold r2, dispatch. rewrite Hr1. simpl. rewrite Hsock.
    apply on_find_partner_alone; simpl; [done..|].
    rewrite Hwait. simpl. by repeat constructor. }
  rewrite Hr2, Hr1. simpl. by rewrite Hwait.
Qed.

Lemma find_partner_alone_enqueues_witness :
  waitingUsers (chatManager
    (dispatch no_Math "B" (ev_find_partner "room-3" 6)
       (dispatch no_Math "B" (ev_find_partner "room-2" 5)
          (run no_Math (take 4 one_waiting) init)).1).1) =
  [ waiting_entry "B" {| nickname := None; socketId := "B"; joinedAt := 2;
                         location := None; ip := "10.0.0.2" |} 5;
    waiting_entry "B" {| nickname := None; socketId := "B"; joinedAt := 2;
                         location := None; ip := "10.0.0.2" |} 6 ].
Proof.
  pose proof (find_partner_alone_enqueues no_Math (take 4 one_waiting) "B"
    {| nickname := None; socketId := "B"; joinedAt := 2; location := None;
       ip := "10.0.0.2" |} "room-2" "room-3" 5 6) as H.
  cbv zeta in H. apply H; [by eexists|reflexivity..].
Defined.

(** C3, as stated, fails: the second find-partner of the only waiting
    socket is answered by searching-partner, not by an error, and the queue
    then holds two entries for that socket. *)
Lemma second_find_partner_counterexample :
  let r := dispatch no_Math "A" (ev_find_partner "room-1" 4) (run no_Math one_waiting init) in
  socketId <$> waitingUsers (chatManager (run no_Math one_waiting init)) = ["A"] ∧
  r.2 = [("A", searching_partner)] ∧
  socketId <$> waitingUsers (chatManager r.1) = ["A"; "A"].
Proof. by vm_compute. Qed.

(** ** Events from a socket that is in no room *)

(** C4, amended: when a connected socket that is in no room sends a
    room-scoped event, the state does not change, and
    - send-message, send-media-message, send-voice-message and
      initiate-voice/video-call deliver one "Not in any chat room" error to
      the sender and nothing to anyone else;
    - end-voice/video-call, webrtc-offer/answer/ice-candidate and
      typing-start/stop deliver nothing at all, not even an error;
    - accept- and reject-voice/video-call do not look at rooms: the event is
      forwarded to the relay group named by the caller id of the request. *)
Theorem events_outside_a_room (Math : MathLib) (sid : string) (st : Server) :
  is_Some (sockets st !! sid) →
  getRoomBySocketId sid (chatManager st) = None →
  (∀ data uuid now now',
     dispatch Math sid (ev_send data uuid now now') st =
       (st, [(sid, error "Not in any chat room")])) ∧
  (∀ k, dispatch Math sid (ev_initiate_call k) st =
          (st, [(sid, error "Not in any chat room")])) ∧
  (∀ k, dispatch Math sid (ev_end_call k) st = (st, [])) ∧
  (∀ k payload, dispatch Math sid (ev_webrtc k payload) st = (st, [])) ∧
  (∀ k, dispatch Math sid (ev_typing k) st = (st, [])) ∧
  (∀ k callerId,
     dispatch Math sid (ev_accept_call k callerId) st =
       (st, io_to callerId (call_accepted k sid) (sockets st))) ∧
  (∀ k callerId,
     dispatch Math sid (ev_reject_call k callerId) st =
       (st, io_to callerId (call_rejected k sid) (sockets st))).
Proof.
  intros [sock Hsock] Hroom. unfold dispatch. rewrite Hsock.
  unfold on_send, on_initiate_call, on_end_call, on_webrtc, on_typing,
    forward_to_partner, on_accept_call, on_reject_call.
  rewrite Hroom. by repeat split.
Qed.

Lemma events_outside_a_room_witness :
  dispatch no_Math "B" (ev_send (text_data "hello") "m-0" 5 6)
    (run no_Math one_waiting init) =
  (run no_Math one_waiting init, [("B", error "Not in any chat room")]).
Proof.
  apply (events_outside_a_room no_Math "B" (run no_Math one_waiting init));
    [by eexists|reflexivity].
Defined.

(** C4, as stated, fails: a socket that is in no room gets no error for a
    webrtc-offer, and its accept-voice-call reaches another connection. *)
Lemma events_outside_a_room_counterexample :
  let st := run no_Math one_waiting init in
  getRoomBySocketId "B" (chatManager st) = None ∧
  dispatch no_Math "B" (ev_webrtc offer "sdp") st = (st, []) ∧
  dispatch no_Math "B" (ev_accept_call voice_call "A") st =
    (st, [("A", call_accepted voice_call "B")]).
Proof. by vm_compute. Qed.

(** ** Stopping a chat *)

(** C10: in every state, the stop-chat handler delivers chat-stopped to the
    requester exactly once, as its last delivery, and whatever it delivers
    before is partner-disconnected; when the requester has no waiting entry
    and is in no room, the whole state is unchanged and chat-stopped to the
    requester is the only delivery. *)
Theorem stop_chat_acknowledged (sid : string) (st : Server) :
  (∃ out, (on_stop_chat sid st).2 = out ++ [(sid, chat_stopped)] ∧
          Forall (λ d : Delivery, d.2 = partner_disconnected) out) ∧
  (∀ Math, is_Some (sockets st !! sid) →
     dispatch Math sid ev_stop_chat st = on_stop_chat sid st) ∧
  (Forall (λ user, socketId user ≠ sid) (waitingUsers (chatManager st)) →
   getRoomBySocketId sid (chatManager st) = None →
   on_stop_chat sid st = (st, [(sid, chat_stopped)])).
Proof.
  split; [|split].
  - unfold on_stop_chat.
    destruct (getRoomBySocketId sid (removeWaitingUser sid (chatManager st))) as [room|].
    + simpl. eexists. split; [done|].
      destruct (getPartnerSocketId _ _ _) as [p|]; simpl; [|constructor].
      unfold io_to. apply Forall_fmap, Forall_forall. by intros.
    + exists []. split; [done|constructor].
  - intros Math [sock Hsock]. unfold dispatch. by rewrite Hsock.
  - intros Hwait Hroom. unfold on_stop_chat.
    rewrite removeWaitingUser_absent by done. rewrite Hroom.
    by rewrite with_chatManager_id.
Qed.

Lemma stop_chat_acknowledged_witness :
  on_stop_chat "B" (run no_Math one_waiting init) =
    (run no_Math one_waiting init, [("B", chat_stopped)]).
Proof.
  apply (stop_chat_acknowledged "B" (run no_Math one_waiting init)).
  - vm_compute. by repeat constructor.
  - reflexivity.
Defined.

(** ** Distance *)

Lemma calculateDistance_None Math lat1 lon1 lat2 lon2 :
  calculateDistance Math lat1 lon1 lat2 lon2 = None ↔
  (falsy lat1 || falsy lon1 || falsy lat2 || falsy lon2)%bool = true.
Proof.
  unfold calculateDistance.
  destruct (falsy lat1 || falsy lon1 || falsy lat2 || falsy lon2)%bool eqn:E; [done|].
  destruct lat1, lon1, lat2, lon2; simpl in E; try done.
  all: by rewrite ?orb_true_r in E.
Qed.

(** C6, at the input of the claim: for a user at (0, 0) degrees and a user
    at (0, 1) degrees, both with coordinates, the room gets no distance:
    [calculateDistance] takes the coordinate 0 for a missing one. *)
Theorem distance_of_zero_coordinate_is_null (Math : MathLib) (u1 u2 : User)
    (l1 l2 : Location) (uuid : string) (now : Z) (cm : ChatManager) :
  location u1 = Some l1 → location u2 = Some l2 →
  latitude l1 = Some 0%float → longitude l1 = Some 0%float →
  latitude l2 = Some 0%float → longitude l2 = Some 1%float →
  distance (createRoom Math u1 u2 uuid now cm).1 = None.
Proof.
  intros H1 H2 Hlat1 Hlon1 Hlat2 Hlon2. unfold createRoom. simpl.
  by rewrite H1, H2, Hlat1, Hlon1, Hlat2, Hlon2.
Qed.

Lemma distance_of_zero_coordinate_is_null_witness :
  distance (createRoom no_Math (user_at "A" origin) (user_at "B" one_degree_east)
              "room-0" 0 ChatManager_new).1 = None.
Proof.
  by apply (distance_of_zero_coordinate_is_null no_Math (user_at "A" origin)
              (user_at "B" one_degree_east) origin one_degree_east).
Defined.

(** ** Who is in a relay group *)

Lemma list_singleton_of {A} (l : list A) (a : A) :
  NoDup l → (∀ x, x ∈ l ↔ x = a) → l = [a].
Proof.
  intros Hnd Hl. destruct l as [|x l].
  - assert (a ∈ @nil A) as Hin by by apply Hl. by apply elem_of_nil in Hin.
  - assert (x = a) as -> by (apply Hl; left). f_equal.
    apply NoDup_cons in Hnd as [Hnotin _]. apply elem_of_nil_inv. intros y Hy.
    assert (y = a) as -> by (apply Hl; by right). done.
Qed.

Lemma group_of_socket (sk : gmap string Socket) c :
  (∀ c0 s, sk !! c0 = Some s → c0 ∈ rooms s) →
  (∀ c0 c' s, sk !! c0 = Some s → c' ∈ rooms s → is_Some (sk !! c') → c' = c0) →
  is_Some (sk !! c) → group c sk = [c].
Proof.
  intros Hown Hpriv [s Hs]. apply list_singleton_of; [apply NoDup_group|].
  intros x. rewrite elem_of_group. split.
  - intros [sx [Hsx Hc]]. symmetry. apply (Hpriv x c sx); [done|done|by rewrite Hs].
  - intros ->. exists s. split; [done|by apply Hown].
Qed.

Lemma group_of_room st k r c :
  inv st → relay_inv st → (k, r) ∈ activeRooms (chatManager st) →
  c ∈ group k (sockets st) ↔ is_member c r.
Proof.
  intros Hinv Hrel Hr. rewrite elem_of_group. split.
  - intros [s [Hs Hk]]. by apply (relay_room st Hrel k r c s).
  - intros Hc. destruct (inv_members_connected st Hinv k r c Hr Hc) as [s Hs].
    exists s. split; [done|]. by apply (relay_room st Hrel k r c s).
Qed.

Section JSMap_get_set.
Context {V : Type}.
Implicit Types (m : list (string * V)) (k : string) (v : V).

Lemma Map_get_set_eq m k v : Map_get k (Map_set k v m) = Some v.
Proof.
  induction m as [|[k0 v0] m IH]; simpl.
  - by rewrite decide_True.
  - case_decide; simpl; [by rewrite decide_True|]. by rewrite decide_False.
Qed.

Lemma Map_get_set_ne m k k' v : k' ≠ k → Map_get k' (Map_set k v m) = Map_get k' m.
Proof.
  intros Hne. induction m as [|[k0 v0] m IH]; simpl.
  - by rewrite decide_False.
  - case_decide; subst; simpl.
    + by rewrite !decide_False by done.
    + case_decide; [done|apply IH].
Qed.

Lemma Map_get_delete_eq m k : Map_get k (Map_delete k m) = None.
Proof.
  apply Map_get_None. rewrite list_elem_of_fmap.
  intros [[k' v'] [-> [Hne _]%elem_of_Map_delete]]. done.
Qed.

End JSMap_get_set.

(** ** Sending a message *)

Lemma find_room_lookup st sid room :
  inv st → getRoomBySocketId sid (chatManager st) = Some room →
  (room_id room, room) ∈ activeRooms (chatManager st) ∧ is_member sid room ∧
  Map_get (room_id room) (activeRooms (chatManager st)) = Some room.
Proof.
  intros Hinv (k & Hin & Hm)%find_room_Some.
  rewrite (inv_room_id st Hinv k room Hin). repeat split; [done..|].
  apply Map_get_Some; [apply Hinv|done].
Qed.

(** C7: in a state reached by a sequence of events whose socket and room
    ids are fresh, a send event from a socket that is in a room appends one
    message, with the generated id, the sender id and a timestamp, to the
    log of that room; every other room, and the list of room ids, is
    unchanged; and each of the two members of the room, the sender
    included, receives exactly one new-message event, while no other socket
    receives anything. *)
Theorem send_message_delivery (Math : MathLib) (evs : list (string * Inbound))
    (sid : string) (room : Room) (data : MessageData) (uuid : string) (now now' : Z) :
  let st := run Math evs init in
  ids_fresh Math evs init = true →
  getRoomBySocketId sid (chatManager st) = Some room →
  let r := dispatch Math sid (ev_send data uuid now now') st in
  let message := make_message data uuid sid now in
  is_member sid room ∧
  message_id message = uuid ∧ senderId message = sid ∧ timestamp message = now ∧
  Map_get (room_id room) (activeRooms (chatManager r.1)) =
    Some (push_message message now' room) ∧
  messages (push_message message now' room) =
    messages room ++
      [ {| message_id := uuid; body := body message; senderId := sid;
           timestamp := now' |} ] ∧
  (∀ k, k ≠ room_id room →
     Map_get k (activeRooms (chatManager r.1)) = Map_get k (activeRooms (chatManager st))) ∧
  (activeRooms (chatManager r.1)).*1 = (activeRooms (chatManager st)).*1 ∧
  (∀ c, received c r.2 = if decide (is_member c room) then [new_message message] else []).
Proof.
  intros st Hfresh Hroom r message.
  pose proof (run_inv Math evs) as Hinv.
  pose proof (run_relay_inv Math evs Hfresh) as Hrel. fold st in Hinv, Hrel.
  destruct (find_room_lookup st sid room Hinv Hroom) as (Hin & Hm & Hget).
  destruct (inv_members_connected st Hinv _ room sid Hin Hm) as [sock Hsock].
  assert (r = (with_chatManager
                 (addMessageToRoom (room_id room) message now' (chatManager st)) st,
               io_to (room_id room) (new_message message) (sockets st))) as ->.
  { unfold r, dispatch. rewrite Hsock. unfold on_send. by rewrite Hroom. }
  simpl. repeat split; try done.
  - unfold addMessageToRoom. rewrite Hget. simpl. apply Map_get_set_eq.
  - intros k Hne. unfold addMessageToRoom. rewrite Hget. simpl.
    by apply Map_get_set_ne.
  - apply addMessageToRoom_keys.
  - intros c. rewrite received_io_to. apply decide_ext.
    by apply (group_of_room st).
Qed.

Lemma send_message_delivery_witness :
  received "A"
    (dispatch no_Math "B" (ev_send (text_data "hello") "m-0" 5 6)
       (run no_Math paired init)).2 =
  [ new_message (make_message (text_data "hello") "m-0" "B" 5) ].
Proof.
  pose proof (send_message_delivery no_Math paired "B"
    {| room_id := "room-1";
       user1 := {| nickname := None; socketId := "B"; joinedAt := 2;
                   location := None; ip := "10.0.0.2" |};
       user2 := {| nickname := Some "alice"; socketId := "A"; joinedAt := 3;
                   location := Some jakarta; ip := "10.0.0.1" |};
       createdAt := 4; messages := []; distance := None |}
    (text_data "hello") "m-0" 5 6) as H.
  cbv zeta in H. destruct H as (_ & _ & _ & _ & _ & _ & _ & _ & H);
    [reflexivity..|].
  rewrite H. reflexivity.
Defined.

(** ** Disconnect *)

Lemma find_room_after_delete st k c :
  inv st → (∃ r, (k, r) ∈ activeRooms (chatManager st) ∧ is_member c r) →
  find_room c (Map_delete k (activeRooms (chatManager st))) = None.
Proof.
  intros Hinv (r & Hr & Hc). apply find_room_None.
  intros k' r' [Hne Hr']%elem_of_Map_delete Hc'. apply Hne.
  by apply (inv_one_room st Hinv k' r' k r c).
Qed.

Lemma getPartnerSocketId_member st sid room :
  inv st → getRoomBySocketId sid (chatManager st) = Some room →
  getPartnerSocketId (room_id room) sid (chatManager st) = Some (other_member sid room) ∧
  other_member sid room ≠ sid ∧ is_member (other_member sid room) room.
Proof.
  intros Hinv Hroom.
  destruct (find_room_lookup st sid room Hinv Hroom) as (Hin & Hm & Hget).
  pose proof (inv_distinct st Hinv _ room Hin) as Hne.
  unfold getPartnerSocketId, other_member. rewrite Hget.
  destruct (decide (socketId (user1 room) = sid)) as [H1|H1].
  - repeat split; [congruence|by right].
  - destruct Hm as [?|H2]; [done|]. rewrite decide_True by done.
    repeat split; [done|by left].
Qed.

(** The disconnect handler does nothing for a socket that is gone. *)
Lemma on_disconnect_gone sid st :
  sockets st !! sid = None →
  userSockets (chatManager st) !! sid = None →
  Forall (λ user, socketId user ≠ sid) (waitingUsers (chatManager st)) →
  getRoomBySocketId sid (chatManager st) = None →
  on_disconnect sid st = (st, []).
Proof.
  intros Hsock Hreg Hwait Hroom. unfold on_disconnect.
  rewrite removeWaitingUser_absent by done.
  rewrite !delete_id by done.
  assert (set_userSockets (userSockets (chatManager st)) (chatManager st) = chatManager st)
    as -> by by destruct (chatManager st).
  rewrite Hroom. by destruct st.
Qed.

(** C5: in a state reached by a sequence of events whose socket and room
    ids are fresh, the disconnect of a socket that is in a room removes the
    room (looking up either member finds no room, and the room id is gone),
    removes the waiting entries and the registry profile of the socket,
    and delivers one partner-disconnected event, to the other member and to
    nobody else; running the disconnect handler again for the same socket
    changes nothing and delivers nothing. *)
Theorem disconnect_removes_room (Math : MathLib) (evs : list (string * Inbound))
    (sid : string) (room : Room) :
  let st := run Math evs init in
  ids_fresh Math evs init = true →
  getRoomBySocketId sid (chatManager st) = Some room →
  let partner := other_member sid room in
  let r := dispatch Math sid ev_disconnect st in
  partner ≠ sid ∧ is_member partner room ∧
  getRoomBySocketId sid (chatManager r.1) = None ∧
  getRoomBySocketId partner (chatManager r.1) = None ∧
  Map_get (room_id room) (activeRooms (chatManager r.1)) = None ∧
  Forall (λ user, socketId user ≠ sid) (waitingUsers (chatManager r.1)) ∧
  userSockets (chatManager r.1) !! sid = None ∧
  r.2 = [(partner, partner_disconnected)] ∧
  on_disconnect sid r.1 = (r.1, []) ∧
  dispatch Math sid ev_disconnect r.1 = (r.1, []).
Proof.
  intros st Hfresh Hroom partner r.
  pose proof (run_inv Math evs) as Hinv.
  pose proof (run_relay_inv Math evs Hfresh) as Hrel. fold st in Hinv, Hrel.
  destruct (find_room_lookup st sid room Hinv Hroom) as (Hin & Hm & Hget).
  destruct (getPartnerSocketId_member st sid room Hinv Hroom) as (Hpartner & Hne & Hpm).
  fold partner in Hpartner, Hne, Hpm.
  destruct (inv_members_connected st Hinv _ room sid Hin Hm) as [sock Hsock].
  pose proof (inv_members_connected st Hinv _ room partner Hin Hpm) as Hpsock.
  assert (group partner (delete sid (sockets st)) = [partner]) as Hgroup.
  { apply group_of_socket.
    - intros c s [_ Hs]%lookup_delete_Some. by apply (relay_own st).
    - intros c c' s [_ Hs]%lookup_delete_Some Hc' [_ Hs']%lookup_delete_is_Some.
      by apply (relay_private st Hrel c c' s).
    - by rewrite lookup_delete_ne. }
  assert (r = ({| chatManager :=
                    removeRoom (room_id room)
                      (set_userSockets
                         (delete sid (userSockets (removeWaitingUser sid (chatManager st))))
                         (removeWaitingUser sid (chatManager st)));
                  sockets := delete sid (sockets st) |},
               [(partner, partner_disconnected)])) as Hr.
  { unfold r, dispatch. rewrite Hsock. unfold on_disconnect.
    unfold getRoomBySocketId in *. simpl. rewrite Hroom.
    unfold getPartnerSocketId in *. simpl. rewrite Hpartner. simpl.
    unfold io_to. by rewrite Hgroup. }
  assert (getRoomBySocketId sid (chatManager r.1) = None) as Hgone.
  { rewrite Hr. unfold getRoomBySocketId. simpl.
    apply (find_room_after_delete st); eauto. }
  assert (Forall (λ user, socketId user ≠ sid) (waitingUsers (chatManager r.1))) as Hw.
  { rewrite Hr. simpl. apply Forall_forall. by intros user [? _]%list_elem_of_filter. }
  assert (userSockets (chatManager r.1) !! sid = None) as Hreg.
  { rewrite Hr. simpl. apply lookup_delete_eq. }
  assert (sockets r.1 !! sid = None) as Hsk.
  { rewrite Hr. simpl. apply lookup_delete_eq. }
  repeat split; try done.
  - rewrite Hr. unfold getRoomBySocketId. simpl.
    apply (find_room_after_delete st); eauto.
  - rewrite Hr. simpl. apply Map_get_delete_eq.
  - by rewrite Hr.
  - by apply on_disconnect_gone.
  - unfold dispatch. by rewrite Hsk.
Qed.

Lemma disconnect_removes_room_witness :
  (dispatch no_Math "A" ev_disconnect (run no_Math paired init)).2 =
    [("B", partner_disconnected)].
Proof.
  pose proof (disconnect_removes_room no_Math paired "A"
    {| room_id := "room-1";
       user1 := {| nickname := None; socketId := "B"; joinedAt := 2;
                   location := None; ip := "10.0.0.2" |};
       user2 := {| nickname := Some "alice"; socketId := "A"; joinedAt := 3;
                   location := Some jakarta; ip := "10.0.0.1" |};
       createdAt := 4; messages := []; distance := None |}) as H.
  cbv zeta in H. destruct H as (_ & _ & _ & _ & _ & _ & _ & H & _);
    [reflexivity..|].
  exact H.
Defined.

(** ** Pairing *)

Lemma find_room_app sid rooms1 rooms2 :
  find_room sid (rooms1 ++ rooms2) =
  match find_room sid rooms1 with
  | Some room => Some room
  | None => find_room sid rooms2
  end.
Proof.
  induction rooms1 as [|[k r] rooms1 IH]; simpl; [done|]. by case_decide.
Qed.

(** A fresh room id is not the id of an active room. *)
Lemma name_free_not_room st uuid :
  inv st → relay_inv st → name_free uuid st = true →
  uuid ∉ (activeRooms (chatManager st)).*1.
Proof.
  intros Hinv Hrel Hfree. pose proof (proj1 (name_free_spec _ _) Hfree) as Hfree'.
  rewrite list_elem_of_fmap. intros [[k r] [-> Hr]]. simpl in *.
  assert (is_member (socketId (user1 r)) r) as Hm by by left.
  destruct (inv_members_connected st Hinv k r _ Hr Hm) as [s Hs].
  apply (Hfree' _ s Hs). by apply (relay_room st Hrel k r (socketId (user1 r)) s).
Qed.

(** C2: in a state reached by a sequence of events whose socket and room
    ids are fresh, when the queue holds the single entry of [A] and a
    connected, registered socket [B], which is in no room, sends
    find-partner, that step creates one room whose members are [B] and [A],
    and it is the only room of either; the queue is empty afterwards; [B]
    and [A] each receive one partner-found event, with the nickname of the
    other one (Anonymous when there is none) and the summary of the other
    one's location, which holds the distance of the room; the summary is
    missing only for a user without location, and then the room has no
    distance; nobody else receives anything. *)
Theorem partner_found_for_both (Math : MathLib) (evs : list (string * Inbound))
    (A B : string) (eA uB : User) (uuid : string) (now : Z) :
  let st := run Math evs init in
  ids_fresh Math evs init = true →
  name_free uuid st = true →
  waitingUsers (chatManager st) = [eA] → socketId eA = A → A ≠ B →
  is_Some (sockets st !! B) →
  userSockets (chatManager st) !! B = Some uB →
  getRoomBySocketId B (chatManager st) = None →
  let r := dispatch Math B (ev_find_partner uuid now) st in
  let room := (createRoom Math uB eA uuid now (chatManager st)).1 in
  room_id room = uuid ∧ user1 room = uB ∧ user2 room = eA ∧
  socketId uB = B ∧ (∀ c, is_member c room ↔ c = B ∨ c = A) ∧
  activeRooms (chatManager r.1) = activeRooms (chatManager st) ++ [(uuid, room)] ∧
  (∀ k r0 c, (k, r0) ∈ activeRooms (chatManager st) → is_member c r0 → c ≠ A ∧ c ≠ B) ∧
  getRoomBySocketId A (chatManager r.1) = Some room ∧
  getRoomBySocketId B (chatManager r.1) = Some room ∧
  waitingUsers (chatManager r.1) = [] ∧
  r.2 =
    [ (B, partner_found
            {| RoomInfo.roomId := uuid; RoomInfo.partnerId := A;
               RoomInfo.partnerInfo :=
                 {| PartnerInfo.nickname := string_or (nickname eA) "Anonymous";
                    PartnerInfo.location := locationInfo eA room |} |});
      (A, partner_found
            {| RoomInfo.roomId := uuid; RoomInfo.partnerId := B;
               RoomInfo.partnerInfo :=
                 {| PartnerInfo.nickname := string_or (nickname uB) "Anonymous";
                    PartnerInfo.location := locationInfo uB room |} |}) ] ∧
  (∀ u, match locationInfo u room with
        | Some info => LocationInfo.distance info = distance room
        | None => location u = None
        end) ∧
  (location eA = None ∨ location uB = None → distance room = None).
Proof.
  intros st Hfresh Hfree Hwait HA Hne [sockB HsockB] Hreg Hroom r room.
  pose proof (run_inv Math evs) as Hinv.
  pose proof (run_relay_inv Math evs Hfresh) as Hrel. fold st in Hinv, Hrel.
  pose proof (inv_registry st Hinv B uB Hreg) as HB.
  assert (eA ∈ waitingUsers (chatManager st)) as HeA by (rewrite Hwait; left).
  assert (findMatch B (chatManager st) =
            (Some eA, removeWaitingUser (socketId eA) (removeWaitingUser B (chatManager st))))
    as Hmatch.
  { unfold findMatch. rewrite Hwait.
    rewrite filter_cons_True by (simpl; congruence). done. }
  assert (r = ({| chatManager :=
                    (createRoom Math uB eA uuid now
                       (removeWaitingUser (socketId eA)
                          (removeWaitingUser B (chatManager st)))).2;
                  sockets := socket_join (socketId eA) uuid
                               (socket_join B uuid (sockets st)) |},
               socket_emit B (partner_found
                 {| RoomInfo.roomId := uuid; RoomInfo.partnerId := socketId eA;
                    RoomInfo.partnerInfo :=
                      {| PartnerInfo.nickname := string_or (nickname eA) "Anonymous";
                         PartnerInfo.location := locationInfo eA room |} |}) ++
               io_to (socketId eA) (partner_found
                 {| RoomInfo.roomId := uuid; RoomInfo.partnerId := B;
                    RoomInfo.partnerInfo :=
                      {| PartnerInfo.nickname := string_or (nickname uB) "Anonymous";
                         PartnerInfo.location := locationInfo uB room |} |})
                 (socket_join (socketId eA) uuid (socket_join B uuid (sockets st)))))
    as Hr.
  { unfold r, dispatch. rewrite HsockB. unfold on_find_partner.
    by rewrite Hreg, Hroom, Hmatch. }
  assert (relay_inv r.1) as Hrel'.
  { unfold r. by apply dispatch_relay_inv. }
  rewrite Hr in Hrel'. simpl in Hrel'.
  assert (group (socketId eA)
            (socket_join (socketId eA) uuid (socket_join B uuid (sockets st))) =
          [socketId eA]) as Hgroup.
  { apply group_of_socket.
    - apply (relay_own _ Hrel').
    - apply (relay_private _ Hrel').
    - unfold socket_join. rewrite !is_Some_lookup_alter.
      by apply (inv_waiting_connected st). }
  assert (∀ k r0 c, (k, r0) ∈ activeRooms (chatManager st) → is_member c r0 →
            c ≠ A ∧ c ≠ B) as Hold.
  { intros k r0 c Hr0 Hc. split; intros ->.
    - rewrite <- HA in Hc. by apply (inv_waiting st Hinv eA k r0).
    - unfold getRoomBySocketId in Hroom. rewrite find_room_None in Hroom.
      by apply (Hroom k r0). }
  assert (∀ c, find_room c (activeRooms (chatManager st)) = None ∨ (c ≠ A ∧ c ≠ B))
    as Hfind.
  { intros c. destruct (find_room c _) as [r0|] eqn:E; [right|by left].
    apply find_room_Some in E as (k & Hr0 & Hc). by apply (Hold k r0). }
  assert (∀ c, is_member c room ↔ c = B ∨ c = A) as Hmem.
  { intros c. unfold is_member, room. simpl. rewrite HB, HA. naive_solver. }
  assert (activeRooms (chatManager r.1) =
            activeRooms (chatManager st) ++ [(uuid, room)]) as Hrooms.
  { rewrite Hr. simpl. apply Map_set_fresh. by apply name_free_not_room. }
  repeat split; try done.
  - by apply Hmem.
  - by apply Hmem.
  - by apply (Hold k r0 c).
  - by apply (Hold k r0 c).
  - unfold getRoomBySocketId. rewrite Hrooms, find_room_app.
    destruct (Hfind A) as [->|[? _]]; [|done]. simpl.
    rewrite decide_True; [done|]. apply Hmem. by right.
  - unfold getRoomBySocketId. rewrite Hrooms, find_room_app.
    destruct (Hfind B) as [->|[_ ?]]; [|done]. simpl.
    rewrite decide_True; [done|]. apply Hmem. by left.
  - rewrite Hr. simpl. rewrite Hwait.
    rewrite filter_cons_True by (simpl; congruence). rewrite filter_nil.
    by rewrite filter_cons_False by (simpl; intros Hx; by apply Hx).
  - rewrite Hr. simpl. unfold io_to. rewrite Hgroup. simpl. by rewrite HA.
  - intros u. unfold locationInfo. by destruct (location u).
  - unfold room. simpl. intros [->| ->]; [by destruct (location uB)|done].
Qed.

Lemma partner_found_for_both_witness :
  (dispatch no_Math "B" (ev_find_partner "room-1" 4) (run no_Math one_waiting init)).2 =
  [ ("B", partner_found
            {| RoomInfo.roomId := "room-1"; RoomInfo.partnerId := "A";
               RoomInfo.partnerInfo :=
                 {| PartnerInfo.nickname := "alice";
                    PartnerInfo.location :=
                      Some {| LocationInfo.country := Some "ID";
                              LocationInfo.city := Some "Jakarta";
                              LocationInfo.region := Some "JK";
                              LocationInfo.distance := None |} |} |});
    ("A", partner_found
            {| RoomInfo.roomId := "room-1"; RoomInfo.partnerId := "B";
               RoomInfo.partnerInfo :=
                 {| PartnerInfo.nickname := "Anonymous";
                    PartnerInfo.location := None |} |}) ].
Proof.
  pose proof (partner_found_for_both no_Math one_waiting "A" "B"
    {| nickname := Some "alice"; socketId := "A"; joinedAt := 3;
       location := Some jakarta; ip := "10.0.0.1" |}
    {| nickname := None; socketId := "B"; joinedAt := 2;
       location := None; ip := "10.0.0.2" |} "room-1" 4) as H.
  cbv zeta in H.
  destruct H as (_ & _ & _ & _ & _ & _ & _ & _ & _ & _ & H & _);
    [reflexivity|reflexivity|reflexivity|reflexivity|discriminate|by eexists
    |reflexivity|reflexivity|].
  exact H.
Defined.

(** ** Events from a socket that is in a room *)

Lemma io_to_socket st c ev :
  relay_inv st → is_Some (sockets st !! c) → io_to c ev (sockets st) = [(c, ev)].
Proof.
  intros Hrel Hc. unfold io_to. rewrite (group_of_socket (sockets st) c); [done| |  |done].
  - apply (relay_own st Hrel).
  - apply (relay_private st Hrel).
Qed.

Lemma emit_to_partner_in_room st sid room ev :
  inv st → relay_inv st →
  getRoomBySocketId sid (chatManager st) = Some room →
  emit_to_partner (getPartnerSocketId (room_id room) sid (chatManager st)) ev (sockets st) =
    [(other_member sid room, ev)].
Proof.
  intros Hinv Hrel Hroom.
  destruct (getPartnerSocketId_member st sid room Hinv Hroom) as (-> & _ & Hpm).
  destruct (find_room_lookup st sid room Hinv Hroom) as (Hin & _ & _).
  simpl. apply io_to_socket; [done|].
  by apply (inv_members_connected st Hinv (room_id room) room).
Qed.

Lemma room_member_connected st sid room :
  inv st → getRoomBySocketId sid (chatManager st) = Some room →
  is_Some (sockets st !! sid).
Proof.
  intros Hinv Hroom.
  destruct (find_room_lookup st sid room Hinv Hroom) as (Hin & Hm & _).
  by apply (inv_members_connected st Hinv (room_id room) room).
Qed.

(** In a state reached by events with fresh ids, the signaling and call
    events of a socket that is in a room are forwarded to the other member
    of the room and to nobody else, the sender included: the payload of
    webrtc-offer/answer/ice-candidate is passed on as it came, tagged with
    the sender id; typing-start/stop and end-voice/video-call carry
    nothing.  The state is unchanged. *)
Theorem forwarding_reaches_the_partner_only (Math : MathLib)
    (evs : list (string * Inbound)) (sid : string) (room : Room) :
  let st := run Math evs init in
  ids_fresh Math evs init = true →
  getRoomBySocketId sid (chatManager st) = Some room →
  let partner := other_member sid room in
  partner ≠ sid ∧
  (∀ k payload, dispatch Math sid (ev_webrtc k payload) st =
     (st, [(partner, webrtc k payload sid)])) ∧
  (∀ k, dispatch Math sid (ev_typing k) st = (st, [(partner, partner_typing k)])) ∧
  (∀ k, dispatch Math sid (ev_end_call k) st = (st, [(partner, call_ended k)])).
Proof.
  intros st Hfresh Hroom partner.
  pose proof (run_inv Math evs) as Hinv.
  pose proof (run_relay_inv Math evs Hfresh) as Hrel. fold st in Hinv, Hrel.
  destruct (room_member_connected st sid room Hinv Hroom) as [sock Hsock].
  destruct (getPartnerSocketId_member st sid room Hinv Hroom) as (_ & Hne & _).
  split; [done|].
  unfold dispatch. rewrite Hsock.
  unfold on_webrtc, on_typing, on_end_call, forward_to_partner. rewrite Hroom.
  repeat split; intros; by rewrite (emit_to_partner_in_room st sid room).
Qed.

Lemma forwarding_reaches_the_partner_only_witness :
  dispatch no_Math "A" (ev_webrtc offer "v=0") (run no_Math paired init) =
    (run no_Math paired init, [("B", webrtc offer "v=0" "A")]).
Proof.
  pose proof (forwarding_reaches_the_partner_only no_Math paired "A"
    {| room_id := "room-1";
       user1 := {| nickname := None; socketId := "B"; joinedAt := 2;
                   location := None; ip := "10.0.0.2" |};
       user2 := {| nickname := Some "alice"; socketId := "A"; joinedAt := 3;
                   location := Some jakarta; ip := "10.0.0.1" |};
       createdAt := 4; messages := []; distance := None |}) as H.
  cbv zeta in H. destruct H as (_ & H & _); [reflexivity..|]. apply H.
Defined.

(** In a state reached by events with fresh ids, initiate-voice/video-call
    from a socket that is in a room delivers one incoming-call event to the
    other member only, with the caller id and the nickname the caller has
    in the registry at that moment (Anonymous when it has none); the state
    is unchanged. *)
Theorem initiate_call_rings_the_partner (Math : MathLib)
    (evs : list (string * Inbound)) (sid : string) (room : Room) (k : CallKind) :
  let st := run Math evs init in
  ids_fresh Math evs init = true →
  getRoomBySocketId sid (chatManager st) = Some room →
  ∃ userInfo,
    userSockets (chatManager st) !! sid = Some userInfo ∧
    dispatch Math sid (ev_initiate_call k) st =
      (st, [(other_member sid room,
             incoming_call k sid (string_or (nickname userInfo) "Anonymous"))]).
Proof.
  intros st Hfresh Hroom.
  pose proof (run_inv Math evs) as Hinv.
  pose proof (run_relay_inv Math evs Hfresh) as Hrel.
  pose proof (run_registered Math evs) as Hreg. fold st in Hinv, Hrel, Hreg.
  destruct (room_member_connected st sid room Hinv Hroom) as [sock Hsock].
  destruct (find_room_lookup st sid room Hinv Hroom) as (Hin & Hm & _).
  destruct (reg_members st Hreg (room_id room) room sid Hin Hm) as [userInfo Huser].
  exists userInfo. split; [done|].
  unfold dispatch. rewrite Hsock. unfold on_initiate_call. rewrite Hroom.
  rewrite (emit_to_partner_in_room st sid room) by done. by rewrite Huser.
Qed.

Lemma initiate_call_rings_the_partner_witness :
  ∃ userInfo,
    userSockets (chatManager (run no_Math paired init)) !! "B" = Some userInfo ∧
    dispatch no_Math "B" (ev_initiate_call video_call) (run no_Math paired init) =
      (run no_Math paired init,
       [("A", incoming_call video_call "B" (string_or (nickname userInfo) "Anonymous"))]).
Proof.
  apply (initiate_call_rings_the_partner no_Math paired "B"
    {| room_id := "room-1";
       user1 := {| nickname := None; socketId := "B"; joinedAt := 2;
                   location := None; ip := "10.0.0.2" |};
       user2 := {| nickname := Some "alice"; socketId := "A"; joinedAt := 3;
                   location := Some jakarta; ip := "10.0.0.1" |};
       createdAt := 4; messages := []; distance := None |} video_call);
    reflexivity.
Defined.

(** ** Leaving a room *)

(** In a state reached by events with fresh ids, stop-chat from a socket
    that is in a room removes the room, so that neither member is in a room
    afterwards; the other member receives partner-disconnected, then the
    requester receives chat-stopped, and nobody else receives anything; the
    requester leaves the relay group of the room; the registry and the
    waiting queue are as before. *)
Theorem stop_chat_leaves_the_room (Math : MathLib) (evs : list (string * Inbound))
    (sid : string) (room : Room) :
  let st := run Math evs init in
  ids_fresh Math evs init = true →
  getRoomBySocketId sid (chatManager st) = Some room →
  let partner := other_member sid room in
  let r := dispatch Math sid ev_stop_chat st in
  r.2 = [(partner, partner_disconnected); (sid, chat_stopped)] ∧
  activeRooms (chatManager r.1) =
    Map_delete (room_id room) (activeRooms (chatManager st)) ∧
  getRoomBySocketId sid (chatManager r.1) = None ∧
  getRoomBySocketId partner (chatManager r.1) = None ∧
  (sid ∉ group (room_id room) (sockets r.1)) ∧
  userSockets (chatManager r.1) = userSockets (chatManager st) ∧
  waitingUsers (chatManager r.1) = waitingUsers (chatManager st).
Proof.
  intros st Hfresh Hroom partner r.
  pose proof (run_inv Math evs) as Hinv.
  pose proof (run_relay_inv Math evs Hfresh) as Hrel. fold st in Hinv, Hrel.
  destruct (room_member_connected st sid room Hinv Hroom) as [sock Hsock].
  destruct (find_room_lookup st sid room Hinv Hroom) as (Hin & Hm & _).
  destruct (getPartnerSocketId_member st sid room Hinv Hroom) as (_ & _ & Hpm).
  assert (removeWaitingUser sid (chatManager st) = chatManager st) as Hw.
  { apply removeWaitingUser_absent, Forall_forall. intros user Hu Heq.
    apply (inv_waiting st Hinv user _ room Hu Hin). by rewrite Heq. }
  assert (r = ({| chatManager := removeRoom (room_id room) (chatManager st);
                  sockets := socket_leave sid (room_id room) (sockets st) |},
               [(partner, partner_disconnected); (sid, chat_stopped)])) as ->.
  { unfold r, dispatch. rewrite Hsock. unfold on_stop_chat. rewrite Hw, Hroom.
    by rewrite (emit_to_partner_in_room st sid room). }
  simpl. repeat split.
  - apply (find_room_after_delete st); eauto.
  - apply (find_room_after_delete st); eauto.
  - rewrite elem_of_group. intros (s & Hs & Hk). unfold socket_leave in Hs.
    rewrite lookup_alter, decide_True, Hsock in Hs by done.
    injection Hs as <-. simpl in Hk. set_solver.
Qed.

Lemma stop_chat_leaves_the_room_witness :
  (dispatch no_Math "B" ev_stop_chat (run no_Math paired init)).2 =
    [("A", partner_disconnected); ("B", chat_stopped)].
Proof.
  pose proof (stop_chat_leaves_the_room no_Math paired "B"
    {| room_id := "room-1";
       user1 := {| nickname := None; socketId := "B"; joinedAt := 2;
                   location := None; ip := "10.0.0.2" |};
       user2 := {| nickname := Some "alice"; socketId := "A"; joinedAt := 3;
                   location := Some jakarta; ip := "10.0.0.1" |};
       createdAt := 4; messages := []; distance := None |}) as H.
  cbv zeta in H. destruct H as (H & _); [reflexivity..|]. exact H.
Defined.

Lemma on_stop_chat_idle sid st :
  Forall (λ user, socketId user ≠ sid) (waitingUsers (chatManager st)) →
  getRoomBySocketId sid (chatManager st) = None →
  on_stop_chat sid st = (st, [(sid, chat_stopped)]).
Proof.
  intros Hwait Hroom. unfold on_stop_chat.
  rewrite removeWaitingUser_absent by done. rewrite Hroom.
  by rewrite with_chatManager_id.
Qed.

(** In every state reached by a sequence of events, a second stop-chat
    from the same socket changes nothing more: it leaves the state of the
    first one and delivers only chat-stopped to the requester. *)
Theorem stop_chat_twice (Math : MathLib) (evs : list (string * Inbound)) (sid : string) :
  let st := run Math evs init in
  let st' := (on_stop_chat sid st).1 in
  on_stop_chat sid st' = (st', [(sid, chat_stopped)]).
Proof.
  intros st st'. pose proof (run_inv Math evs) as Hinv. fold st in Hinv.
  apply on_stop_chat_idle.
  - unfold st', on_stop_chat.
    destruct (getRoomBySocketId sid (removeWaitingUser sid (chatManager st)));
      simpl; apply Forall_forall; by intros user [? _]%list_elem_of_filter.
  - unfold st', on_stop_chat, getRoomBySocketId. simpl.
    destruct (find_room sid (activeRooms (chatManager st))) as [room|] eqn:E; simpl.
    + pose proof E as (k & Hin & Hm)%find_room_Some.
      rewrite (inv_room_id st Hinv k room Hin).
      apply (find_room_after_delete st); eauto.
    + done.
Qed.

(** ** Registration *)

(** join-system from a connected socket stores a profile under the socket's
    own id, with the location and address found when the socket connected,
    and answers joined-system to that socket only; every other profile, the
    queue (an entry keeps the nickname it was enqueued with), the rooms and
    the sockets are unchanged; joining again replaces the profile, so two
    joins in a row leave the state of the second one alone. *)
Theorem join_system_registers (Math : MathLib) (sid : string) (sock : Socket)
    (nick nick' : option string) (now now' : Z) (st : Server) :
  sockets st !! sid = Some sock →
  let r := dispatch Math sid (ev_join_system nick now) st in
  let r' := dispatch Math sid (ev_join_system nick' now') r.1 in
  userSockets (chatManager r.1) !! sid =
    Some {| nickname := nick; socketId := sid; joinedAt := now;
            location := userLocation sock; ip := clientIP sock |} ∧
  (∀ c, c ≠ sid → userSockets (chatManager r.1) !! c = userSockets (chatManager st) !! c) ∧
  waitingUsers (chatManager r.1) = waitingUsers (chatManager st) ∧
  activeRooms (chatManager r.1) = activeRooms (chatManager st) ∧
  sockets r.1 = sockets st ∧
  r.2 = [(sid, joined_system sid (userLocation sock))] ∧
  r'.1 = (dispatch Math sid (ev_join_system nick' now') st).1.
Proof.
  intros Hsock r r'. unfold r', r, dispatch. rewrite Hsock. simpl. rewrite Hsock.
  repeat split.
  - apply lookup_insert_eq.
  - intros c Hne. by apply lookup_insert_ne.
  - unfold on_join_system, with_chatManager, set_userSockets. simpl.
    by rewrite insert_insert_eq.
Qed.

Lemma join_system_registers_witness :
  userSockets (chatManager
    (dispatch no_Math "B" (ev_join_system (Some "bob") 7) (run no_Math paired init)).1)
    !! "B" =
  Some {| nickname := Some "bob"; socketId := "B"; joinedAt := 7; location := None;
          ip := "10.0.0.2" |}.
Proof.
  apply (join_system_registers no_Math "B"
    {| userLocation := None; clientIP := "10.0.0.2"; rooms := {["B"; "room-1"]} |}
    (Some "bob") None 7 8 (run no_Math paired init)).
  by vm_compute.
Defined.

(** ** Partner location *)

(** In every state reached by a sequence of events, get-partner-location
    from a socket that is in a room answers, to that socket only, with the
    country, city and region of the other member's snapshot and the
    distance of the room, or with no location when the other member has
    none; from a connected socket that is in no room it answers with the
    error.  The state is unchanged in both cases. *)
Theorem partner_location_answer (Math : MathLib) (evs : list (string * Inbound))
    (sid : string) :
  let st := run Math evs init in
  is_Some (sockets st !! sid) →
  dispatch Math sid ev_get_partner_location st =
    (st, [(sid,
           match getRoomBySocketId sid (chatManager st) with
           | Some room => partner_location (locationInfo (other_user sid room) room)
           | None => error "Not in any chat room"
           end)]).
Proof.
  intros st [sock Hsock]. pose proof (run_inv Math evs) as Hinv. fold st in Hinv.
  unfold dispatch. rewrite Hsock. unfold on_get_partner_location.
  destruct (getRoomBySocketId sid (chatManager st)) as [room|] eqn:Hroom; [|done].
  destruct (find_room_lookup st sid room Hinv Hroom) as (Hin & Hm & Hget).
  unfold getPartnerInfo, other_user. rewrite Hget.
  destruct (decide (socketId (user1 room) = sid)) as [H1|H1]; [done|].
  destruct Hm as [?|H2]; [done|]. by rewrite decide_True.
Qed.

Lemma partner_location_answer_witness :
  dispatch no_Math "B" ev_get_partner_location (run no_Math paired init) =
    (run no_Math paired init,
     [("B", partner_location
              (Some {| LocationInfo.country := Some "ID";
                       LocationInfo.city := Some "Jakarta";
                       LocationInfo.region := Some "JK";
                       LocationInfo.distance := None |}))]).
Proof.
  apply (partner_location_answer no_Math paired "B"). by eexists.
Defined.

(** ** Answering a call *)

(** In a state reached by events with fresh ids, accept- and
    reject-voice/video-call from a connected socket deliver one event, with
    the id of the answering socket, to the socket named as caller when that
    one is connected, whether or not the two share a room, and to nobody
    else; the state is unchanged. *)
Theorem call_answer_reaches_the_named_caller (Math : MathLib)
    (evs : list (string * Inbound)) (sid callerId : string) (k : CallKind) :
  let st := run Math evs init in
  ids_fresh Math evs init = true →
  is_Some (sockets st !! sid) → is_Some (sockets st !! callerId) →
  dispatch Math sid (ev_accept_call k callerId) st =
    (st, [(callerId, call_accepted k sid)]) ∧
  dispatch Math sid (ev_reject_call k callerId) st =
    (st, [(callerId, call_rejected k sid)]).
Proof.
  intros st Hfresh [sock Hsock] Hcaller.
  pose proof (run_relay_inv Math evs Hfresh) as Hrel. fold st in Hrel.
  unfold dispatch. rewrite Hsock. unfold on_accept_call, on_reject_call.
  by rewrite !(io_to_socket st callerId).
Qed.

Lemma call_answer_reaches_the_named_caller_witness :
  dispatch no_Math "B" (ev_reject_call voice_call "A") (run no_Math one_waiting init) =
    (run no_Math one_waiting init, [("A", call_rejected voice_call "B")]).
Proof.
  apply (call_answer_reaches_the_named_caller no_Math one_waiting "B" "A" voice_call);
    [reflexivity|by eexists|by eexists].
Defined.

(** ** At most one socket waits *)

Lemma addMessageToRoom_waiting roomId message now cm :
  waitingUsers (addMessageToRoom roomId message now cm) = waitingUsers cm.
Proof. unfold addMessageToRoom. by destruct (Map_get _ _). Qed.

Lemma addMessageToRoom_userSockets roomId message now cm :
  userSockets (addMessageToRoom roomId message now cm) = userSockets cm.
Proof. unfold addMessageToRoom. by destruct (Map_get _ _). Qed.

(** An entry of the queue after an event was there before, or it is a new
    entry of the sender, enqueued when every entry was the sender's. *)
Lemma dispatch_waiting Math sid ev st u :
  inv st →
  u ∈ waitingUsers (chatManager (dispatch Math sid ev st).1) →
  u ∈ waitingUsers (chatManager st) ∨
  (socketId u = sid ∧ ∀ v, v ∈ waitingUsers (chatManager st) → socketId v = sid).
Proof.
  intros Hinv. unfold dispatch.
  destruct (sockets st !! sid) as [sock|]; [|destruct ev; simpl; by left].
  destruct ev; simpl; try by left.
  - unfold on_find_partner.
    destruct (userSockets (chatManager st) !! sid) as [userInfo|] eqn:Hreg; [|by left].
    destruct (getRoomBySocketId sid (chatManager st)); [by left|].
    destruct (findMatch sid (chatManager st)) as [[m|] cm1] eqn:Hmatch.
    + apply findMatch_Some in Hmatch as (_ & _ & ->). simpl.
      intros [_ [_ Hu]%list_elem_of_filter]%list_elem_of_filter. by left.
    + apply findMatch_None in Hmatch as [-> Hall]. simpl.
      intros [Hu| ->%list_elem_of_singleton]%elem_of_app; [by left|right].
      split; [|done]. simpl. by apply (inv_registry st Hinv).
  - unfold on_send. destruct (getRoomBySocketId sid (chatManager st)); [|by left].
    simpl. rewrite addMessageToRoom_waiting. by left.
  - rewrite on_get_partner_location_state. by left.
  - unfold on_stop_chat.
    destruct (getRoomBySocketId sid (removeWaitingUser sid (chatManager st))); simpl;
      intros [_ Hu]%list_elem_of_filter; by left.
  - rewrite on_initiate_call_state. by left.
  - unfold on_end_call. rewrite forward_to_partner_state. by left.
  - unfold on_webrtc. rewrite forward_to_partner_state. by left.
  - unfold on_typing. rewrite forward_to_partner_state. by left.
  - unfold on_disconnect.
    destruct (getRoomBySocketId sid _); simpl;
      intros [_ Hu]%list_elem_of_filter; by left.
Qed.

Lemma run_waiting_same_socket Math evs u v :
  u ∈ waitingUsers (chatManager (run Math evs init)) →
  v ∈ waitingUsers (chatManager (run Math evs init)) →
  socketId u = socketId v.
Proof.
  revert u v. induction evs as [|[sid ev] evs IH] using rev_ind.
  - intros u v Hu. by apply elem_of_nil in Hu.
  - rewrite run_app. simpl. intros u v Hu Hv.
    pose proof (run_inv Math evs) as Hinv.
    destruct (dispatch_waiting Math sid ev _ u Hinv Hu) as [Hu'|[Hu' Hall]];
      destruct (dispatch_waiting Math sid ev _ v Hinv Hv) as [Hv'|[Hv' Hall']].
    + by apply IH.
    + rewrite Hv'. by apply Hall'.
    + rewrite Hu'. symmetry. by apply Hall.
    + by rewrite Hu', Hv'.
Qed.

(** After any sequence of events, all the entries of the waiting queue
    belong to one socket: a request that finds an entry of another socket
    is paired with it at once, so a second socket never gets to wait.  When
    a find-partner of a connected, registered socket that is in no room is
    matched, the partner is therefore the head of the queue, and the queue
    is empty afterwards. *)
Theorem at_most_one_socket_waits (Math : MathLib) (evs : list (string * Inbound)) :
  let st := run Math evs init in
  (∀ u v, u ∈ waitingUsers (chatManager st) → v ∈ waitingUsers (chatManager st) →
     socketId u = socketId v) ∧
  (∀ sid uuid now userInfo m cm',
     is_Some (sockets st !! sid) →
     userSockets (chatManager st) !! sid = Some userInfo →
     getRoomBySocketId sid (chatManager st) = None →
     findMatch sid (chatManager st) = (Some m, cm') →
     head (waitingUsers (chatManager st)) = Some m ∧
     waitingUsers (chatManager (dispatch Math sid (ev_find_partner uuid now) st).1) = []).
Proof.
  intros st. split; [apply run_waiting_same_socket|].
  intros sid uuid now userInfo m cm' [sock Hsock] Hreg Hroom Hmatch.
  pose proof Hmatch as (Hm & Hne & ->)%findMatch_Some.
  assert (Forall (λ u, socketId u = socketId m) (waitingUsers (chatManager st))) as Hall.
  { apply Forall_forall. intros u Hu. by apply (run_waiting_same_socket Math evs). }
  split.
  - unfold findMatch in Hmatch.
    destruct (waitingUsers (chatManager st)) as [|e w]; [done|].
    rewrite filter_cons_True in Hmatch.
    + by injection Hmatch as ->.
    + apply Forall_cons in Hall as [-> _]. done.
  - unfold dispatch. rewrite Hsock. unfold on_find_partner.
    rewrite Hreg, Hroom, Hmatch. simpl. apply elem_of_nil_inv. intros u.
    intros [Hu [_ Hin]%list_elem_of_filter]%list_elem_of_filter.
    rewrite Forall_forall in Hall. by apply Hu, Hall.
Qed.

Lemma at_most_one_socket_waits_witness :
  waitingUsers (chatManager
    (dispatch no_Math "B" (ev_find_partner "room-1" 4) (run no_Math one_waiting init)).1)
  = [].
Proof.
  pose proof (at_most_one_socket_waits no_Math one_waiting) as [_ H].
  eapply H; [by eexists|reflexivity..].
Defined.

(** ** Nothing refers to a socket that is gone *)

(** After any sequence of events, every waiting entry and every member of
    a room is a connected socket with a profile in the registry, and a
    waiting socket is in no room; so once the disconnect of a socket has been
    handled, no waiting entry, no room, no profile and no relay group refers
    to it. *)
Theorem no_stale_references (Math : MathLib) (evs : list (string * Inbound)) :
  let st := run Math evs init in
  (∀ u, u ∈ waitingUsers (chatManager st) →
     is_Some (sockets st !! socketId u) ∧
     is_Some (userSockets (chatManager st) !! socketId u) ∧
     getRoomBySocketId (socketId u) (chatManager st) = None) ∧
  (∀ k r c, (k, r) ∈ activeRooms (chatManager st) → is_member c r →
     is_Some (sockets st !! c) ∧ is_Some (userSockets (chatManager st) !! c)) ∧
  (∀ sid,
     let st' := (on_disconnect sid st).1 in
     sockets st' !! sid = None ∧
     userSockets (chatManager st') !! sid = None ∧
     getRoomBySocketId sid (chatManager st') = None ∧
     Forall (λ u, socketId u ≠ sid) (waitingUsers (chatManager st')) ∧
     ∀ name, sid ∉ group name (sockets st')).
Proof.
  intros st. pose proof (run_inv Math evs) as Hinv.
  pose proof (run_registered Math evs) as Hreg. fold st in Hinv, Hreg.
  split; [|split].
  - intros u Hu. repeat split.
    + by apply (inv_waiting_connected st).
    + by apply (reg_waiting st).
    + apply find_room_None. intros k r Hr. by apply (inv_waiting st Hinv u k r).
  - intros k r c Hr Hc. split.
    + by apply (inv_members_connected st Hinv k r).
    + by apply (reg_members st Hreg k r).
  - intros sid st'.
    pose proof (on_disconnect_inv sid st Hinv) as Hinv'. fold st' in Hinv'.
    assert (sockets st' !! sid = None) as Hgone.
    { unfold st', on_disconnect. destruct (getRoomBySocketId sid _); simpl;
        apply lookup_delete_eq. }
    repeat split; try done.
    + unfold st', on_disconnect. destruct (getRoomBySocketId sid _); simpl;
        apply lookup_delete_eq.
    + apply find_room_None. intros k r Hr Hc.
      destruct (inv_members_connected st' Hinv' k r sid Hr Hc) as [? ?]. congruence.
    + apply Forall_forall. intros u Hu Heq.
      destruct (inv_waiting_connected st' Hinv' u Hu) as [? ?]. congruence.
    + intros name [s [Hs _]]%elem_of_group. congruence.
Qed.

(** ** What an event does to the rooms *)

Lemma Map_get_delete_ne {V} (m : list (string * V)) k k' :
  k' ≠ k → Map_get k' (Map_delete k m) = Map_get k' m.
Proof.
  intros Hne. induction m as [|[k0 v0] m IH]; [done|].
  unfold Map_delete in *. destruct (decide (k0 = k)) as [->|Hk0].
  - rewrite filter_cons_False by (simpl; intros Hx; by apply Hx).
    rewrite IH. simpl. by rewrite decide_False.
  - rewrite filter_cons_True by done. simpl. case_decide; [done|apply IH].
Qed.

Lemma Map_get_is_key {V} (m : list (string * V)) k v :
  Map_get k m = Some v → k ∈ m.*1.
Proof.
  intros Hget. apply dec_stable. intros Hnotin%Map_get_None. congruence.
Qed.

(** After an event with fresh ids, a room is as it was, or the sender was
    one of its members and the room is gone or has one more message, sent by
    the sender, at the end of its log. *)
Lemma dispatch_room_fate Math sid ev st k r :
  inv st → relay_inv st → id_fresh ev sid st = true →
  Map_get k (activeRooms (chatManager st)) = Some r →
  let rooms' := activeRooms (chatManager (dispatch Math sid ev st).1) in
  Map_get k rooms' = Some r ∨
  (is_member sid r ∧
   (Map_get k rooms' = None ∨
    ∃ message now', Map_get k rooms' = Some (push_message message now' r) ∧
                    senderId message = sid)).
Proof.
  intros Hinv Hrel Hfresh Hget. unfold dispatch.
  assert (∀ room, getRoomBySocketId sid (chatManager st) = Some room →
            k = room_id room → r = room ∧ is_member sid r) as Hsame.
  { intros room Hroom ->.
    destruct (find_room_lookup st sid room Hinv Hroom) as (_ & Hm & Hget').
    assert (r = room) as -> by congruence. done. }
  destruct (sockets st !! sid) as [sock|]; [|destruct ev; simpl; by left].
  destruct ev; simpl; try by left.
  - unfold on_find_partner.
    destruct (userSockets (chatManager st) !! sid) as [userInfo|]; [|by left].
    destruct (getRoomBySocketId sid (chatManager st)); [by left|].
    destruct (findMatch sid (chatManager st)) as [[m|] cm1] eqn:Hmatch.
    + apply findMatch_Some in Hmatch as (_ & _ & ->). simpl. left.
      rewrite Map_get_set_ne; [done|]. intros ->.
      apply (name_free_not_room st uuid Hinv Hrel Hfresh).
      by apply (Map_get_is_key _ _ r).
    + apply findMatch_None in Hmatch as [-> _]. by left.
  - unfold on_send.
    destruct (getRoomBySocketId sid (chatManager st)) as [room|] eqn:Hroom; [|by left].
    simpl. unfold addMessageToRoom.
    destruct (find_room_lookup st sid room Hinv Hroom) as (_ & _ & ->). simpl.
    destruct (decide (k = room_id room)) as [Hk|Hk].
    + destruct (Hsame room eq_refl Hk) as [-> Hm]. right. split; [done|]. right.
      eexists _, _. rewrite Hk, Map_get_set_eq. done.
    + left. by rewrite Map_get_set_ne.
  - rewrite on_get_partner_location_state. by left.
  - unfold on_stop_chat, getRoomBySocketId. simpl.
    destruct (find_room sid (activeRooms (chatManager st))) as [room|] eqn:Hroom;
      [|by left]. simpl.
    destruct (decide (k = room_id room)) as [Hk|Hk].
    + destruct (Hsame room Hroom Hk) as [-> Hm]. right. split; [done|]. left.
      rewrite Hk. apply Map_get_delete_eq.
    + left. by rewrite Map_get_delete_ne.
  - rewrite on_initiate_call_state. by left.
  - unfold on_end_call. rewrite forward_to_partner_state. by left.
  - unfold on_webrtc. rewrite forward_to_partner_state. by left.
  - unfold on_typing. rewrite forward_to_partner_state. by left.
  - unfold on_disconnect, getRoomBySocketId. simpl.
    destruct (find_room sid (activeRooms (chatManager st))) as [room|] eqn:Hroom;
      [|by left]. simpl.
    destruct (decide (k = room_id room)) as [Hk|Hk].
    + destruct (Hsame room Hroom Hk) as [-> Hm]. right. split; [done|]. left.
      rewrite Hk. apply Map_get_delete_eq.
    + left. by rewrite Map_get_delete_ne.
Qed.

(** In a state reached by events with fresh ids, one more event with fresh
    ids leaves every room that the sender is not a member of exactly as it
    was, log included; a room that is still there after the event has its
    members, creation time and distance unchanged and its old log as a
    prefix of the new one, which is at most one message longer. *)
Theorem rooms_of_others_are_untouched (Math : MathLib) (evs : list (string * Inbound))
    (sid : string) (ev : Inbound) (k : string) (r : Room) :
  let st := run Math evs init in
  ids_fresh Math (evs ++ [(sid, ev)]) init = true →
  Map_get k (activeRooms (chatManager st)) = Some r →
  let rooms' := activeRooms (chatManager (dispatch Math sid ev st).1) in
  (¬ is_member sid r → Map_get k rooms' = Some r) ∧
  (∀ r', Map_get k rooms' = Some r' →
     user1 r' = user1 r ∧ user2 r' = user2 r ∧ room_id r' = room_id r ∧
     createdAt r' = createdAt r ∧ distance r' = distance r ∧
     messages r `prefix_of` messages r' ∧
     (length (messages r') ≤ S (length (messages r)))%nat).
Proof.
  intros st Hfresh Hget rooms'.
  assert (ids_fresh Math evs init = true ∧ id_fresh ev sid st = true) as [Hevs Hev].
  { clear Hget. revert Hfresh. unfold st. generalize init.
    induction evs as [|[sid0 ev0] evs IH]; simpl; intros st0.
    - rewrite andb_true_r. done.
    - intros [H1 H2]%andb_prop. destruct (IH _ H2) as [? ?].
      split; [by apply andb_true_intro|done]. }
  pose proof (run_inv Math evs) as Hinv.
  pose proof (run_relay_inv Math evs Hevs) as Hrel. fold st in Hinv, Hrel.
  pose proof (dispatch_room_fate Math sid ev st k r Hinv Hrel Hev Hget) as Hfate.
  cbv zeta in Hfate. fold rooms' in Hfate.
  destruct Hfate as [Hsame|[Hm [Hnone|(message & now' & Hpush & _)]]].
  - split; [done|]. intros r' Hr'. assert (r' = r) as -> by congruence.
    repeat split; [done|lia].
  - split; [done|]. intros r' Hr'. congruence.
  - split; [done|]. intros r' Hr'.
    assert (r' = push_message message now' r) as -> by congruence. simpl.
    repeat split; [by apply prefix_app_r|]. rewrite length_app. simpl. lia.
Qed.

Lemma rooms_of_others_are_untouched_witness :
  Map_get "room-1"
    (activeRooms (chatManager
       (dispatch no_Math "C" (ev_send (text_data "x") "m-0" 8 9)
          (run no_Math (paired ++ [("C", ev_connection None "10.0.0.3")]) init)).1)) =
  Map_get "room-1" (activeRooms (chatManager (run no_Math paired init))).
Proof.
  pose proof (rooms_of_others_are_untouched no_Math
    (paired ++ [("C", ev_connection None "10.0.0.3")]) "C"
    (ev_send (text_data "x") "m-0" 8 9) "room-1"
    {| room_id := "room-1";
       user1 := {| nickname := None; socketId := "B"; joinedAt := 2;
                   location := None; ip := "10.0.0.2" |};
       user2 := {| nickname := Some "alice"; socketId := "A"; joinedAt := 3;
                   location := Some jakarta; ip := "10.0.0.1" |};
       createdAt := 4; messages := []; distance := None |}) as H.
  cbv zeta in H. destruct H as (H & _); [reflexivity..|].
  rewrite H; [reflexivity|]. by intros [?|?].
Defined.

(** ** The message log *)

(** A room after an event was there before, or it is new and its log is
    empty, or it is the sender's room with one more message of the sender. *)
Lemma dispatch_rooms Math sid ev st k r' :
  inv st →
  (k, r') ∈ activeRooms (chatManager (dispatch Math sid ev st).1) →
  (k, r') ∈ activeRooms (chatManager st) ∨
  messages r' = [] ∨
  (∃ r message now', (k, r) ∈ activeRooms (chatManager st) ∧ is_member sid r ∧
                     r' = push_message message now' r ∧ senderId message = sid).
Proof.
  intros Hinv. unfold dispatch.
  destruct (sockets st !! sid) as [sock|]; [|destruct ev; simpl; by left].
  destruct ev; simpl; try by left.
  - unfold on_find_partner.
    destruct (userSockets (chatManager st) !! sid) as [userInfo|]; [|by left].
    destruct (getRoomBySocketId sid (chatManager st)); [by left|].
    destruct (findMatch sid (chatManager st)) as [[m|] cm1] eqn:Hmatch.
    + apply findMatch_Some in Hmatch as (_ & _ & ->). simpl.
      intros [[-> ->]|[_ Hr]]%elem_of_Map_set; [right; by left|by left|apply Hinv].
    + apply findMatch_None in Hmatch as [-> _]. by left.
  - unfold on_send.
    destruct (getRoomBySocketId sid (chatManager st)) as [room|] eqn:Hroom; [|by left].
    simpl. destruct (find_room_lookup st sid room Hinv Hroom) as (Hin & Hm & Hget).
    intros (r & Hr & [->|[-> ->]])%addMessageToRoom_rooms; [by left| |apply Hinv].
    apply Map_get_Some in Hr; [|apply Hinv]. assert (r = room) as -> by congruence.
    right. right. exists room. eexists _, _. done.
  - rewrite on_get_partner_location_state. by left.
  - unfold on_stop_chat.
    destruct (getRoomBySocketId sid (removeWaitingUser sid (chatManager st))); simpl;
      [|by left]. intros [_ Hr]%elem_of_Map_delete. by left.
  - rewrite on_initiate_call_state. by left.
  - unfold on_end_call. rewrite forward_to_partner_state. by left.
  - unfold on_webrtc. rewrite forward_to_partner_state. by left.
  - unfold on_typing. rewrite forward_to_partner_state. by left.
  - unfold on_disconnect. destruct (getRoomBySocketId sid _); simpl; [|by left].
    intros [_ Hr]%elem_of_Map_delete. by left.
Qed.

(** After any sequence of events, every message in the log of a room was
    sent by one of the two members of that room. *)
Theorem log_senders_are_members (Math : MathLib) (evs : list (string * Inbound)) :
  ∀ k r message,
    (k, r) ∈ activeRooms (chatManager (run Math evs init)) →
    message ∈ messages r →
    is_member (senderId message) r.
Proof.
  induction evs as [|[sid ev] evs IH] using rev_ind.
  - intros k r message Hr. by apply elem_of_nil in Hr.
  - rewrite run_app. simpl. intros k r' message Hr' Hmsg.
    pose proof (run_inv Math evs) as Hinv.
    destruct (dispatch_rooms Math sid ev _ k r' Hinv Hr')
      as [Hr|[Hnil|(r & msg & now' & Hr & Hm & -> & Hsender)]].
    + by apply (IH k r').
    + rewrite Hnil in Hmsg. by apply elem_of_nil in Hmsg.
    + simpl in Hmsg. apply elem_of_app in Hmsg as [Hold| ->%list_elem_of_singleton].
      * by apply (IH k r).
      * simpl. by rewrite Hsender.
Qed.

Lemma log_senders_are_members_witness :
  is_member "B"
    {| room_id := "room-1";
       user1 := {| nickname := None; socketId := "B"; joinedAt := 2;
                   location := None; ip := "10.0.0.2" |};
       user2 := {| nickname := Some "alice"; socketId := "A"; joinedAt := 3;
                   location := Some jakarta; ip := "10.0.0.1" |};
       createdAt := 4;
       messages := [stored (make_message (text_data "hi") "m-0" "B" 5) 6];
       distance := None |}.
Proof.
  apply (log_senders_are_members no_Math
           (paired ++ [("B", ev_send (text_data "hi") "m-0" 5 6)]) "room-1" _
           (stored (make_message (text_data "hi") "m-0" "B" 5) 6)).
  - vm_compute. left.
  - vm_compute. left.
Defined.

(** ** Profiles of other sockets *)

Lemma dispatch_userSockets Math sid ev st :
  userSockets (chatManager (dispatch Math sid ev st).1) =
  match sockets st !! sid, ev with
  | Some sock, ev_join_system nick now =>
      <[sid := {| nickname := nick; socketId := sid; joinedAt := now;
                  location := userLocation sock; ip := clientIP sock |}]>
        (userSockets (chatManager st))
  | Some _, ev_disconnect => delete sid (userSockets (chatManager st))
  | _, _ => userSockets (chatManager st)
  end.
Proof.
  unfold dispatch.
  destruct (sockets st !! sid) as [sock|]; [|by destruct ev].
  destruct ev; simpl; try done.
  - unfold on_find_partner.
    destruct (userSockets (chatManager st) !! sid) as [userInfo|]; [|done].
    destruct (getRoomBySocketId sid (chatManager st)); [done|].
    destruct (findMatch sid (chatManager st)) as [[m|] cm1] eqn:Hmatch.
    + by apply findMatch_Some in Hmatch as (_ & _ & ->).
    + by apply findMatch_None in Hmatch as [-> _].
  - unfold on_send. destruct (getRoomBySocketId sid (chatManager st)); [|done].
    simpl. apply addMessageToRoom_userSockets.
  - by rewrite on_get_partner_location_state.
  - unfold on_stop_chat.
    by destruct (getRoomBySocketId sid (removeWaitingUser sid (chatManager st))).
  - by rewrite on_initiate_call_state.
  - unfold on_end_call. by rewrite forward_to_partner_state.
  - unfold on_webrtc. by rewrite forward_to_partner_state.
  - unfold on_typing. by rewrite forward_to_partner_state.
  - unfold on_disconnect. by destruct (getRoomBySocketId sid _).
Qed.

(** In any state, an event of one socket leaves the profile of every other
    socket as it was; the sender's own profile is changed by join-system and
    disconnect only. *)
Theorem profiles_of_others_are_untouched (Math : MathLib) (sid : string) (ev : Inbound)
    (st : Server) :
  let st' := (dispatch Math sid ev st).1 in
  (∀ c, c ≠ sid →
     userSockets (chatManager st') !! c = userSockets (chatManager st) !! c) ∧
  (userSockets (chatManager st') !! sid ≠ userSockets (chatManager st) !! sid →
     (∃ nick now, ev = ev_join_system nick now) ∨ ev = ev_disconnect).
Proof.
  intros st'. unfold st'. rewrite dispatch_userSockets.
  destruct (sockets st !! sid) as [sock|];
    [|split; [done|intros Hne; by destruct Hne]].
  destruct ev; try (split; [done|intros Hne; by destruct Hne]).
  - split; [|by eauto]. intros c Hne. by apply lookup_insert_ne.
  - split; [|by eauto]. intros c Hne. by apply lookup_delete_ne.
Qed.

(** ** Deliveries stay between the two members of a room *)

Lemma ids_fresh_snoc Math evs sid ev st0 :
  ids_fresh Math (evs ++ [(sid, ev)]) st0 = true →
  ids_fresh Math evs st0 = true ∧ id_fresh ev sid (run Math evs st0) = true.
Proof.
  revert st0. induction evs as [|[sid0 ev0] evs IH]; simpl; intros st0.
  - rewrite andb_true_r. done.
  - intros [H1 H2]%andb_prop. destruct (IH _ H2) as [? ?].
    split; [by apply andb_true_intro|done].
Qed.

Lemma elem_of_io_to c e room ev (sk : gmap string Socket) :
  (c, e) ∈ io_to room ev sk ↔ e = ev ∧ c ∈ group room sk.
Proof.
  unfold io_to. rewrite list_elem_of_fmap. split.
  - intros (c' & [= -> ->] & Hc). done.
  - intros [-> Hc]. by exists c.
Qed.

Lemma find_room_unique st sid k r :
  inv st → (k, r) ∈ activeRooms (chatManager st) → is_member sid r →
  getRoomBySocketId sid (chatManager st) = Some r.
Proof.
  intros Hinv Hr Hm. unfold getRoomBySocketId.
  destruct (find_room_is_Some sid _ k r Hr Hm) as [r' Hr'].
  rewrite Hr'. f_equal. pose proof Hr' as (k' & Hin' & Hm')%find_room_Some.
  assert (k' = k) as -> by by apply (inv_one_room st Hinv k' r' k r sid).
  apply (Map_get_Some _ _ _ (inv_keys st Hinv)) in Hr, Hin'. congruence.
Qed.

(** What is emitted to the partner, in a socket table that has lost
    sockets or group memberships, reaches only the other member. *)
Lemma partner_delivery st sid room cm' sk' ev c e :
  inv st → relay_inv st →
  getRoomBySocketId sid (chatManager st) = Some room →
  activeRooms cm' = activeRooms (chatManager st) →
  (∀ c0 s', sk' !! c0 = Some s' →
     ∃ s, sockets st !! c0 = Some s ∧ rooms s' ⊆ rooms s) →
  (c, e) ∈ emit_to_partner (getPartnerSocketId (room_id room) sid cm') ev sk' →
  c = other_member sid room ∧ is_member c room.
Proof.
  intros Hinv Hrel Hroom Hrooms Hsub.
  destruct (getPartnerSocketId_member st sid room Hinv Hroom) as (Hp & _ & Hpm).
  destruct (find_room_lookup st sid room Hinv Hroom) as (Hin & _ & _).
  unfold getPartnerSocketId in *. rewrite Hrooms, Hp. simpl.
  intros [_ (s' & Hs' & Hc)%elem_of_group]%elem_of_io_to.
  destruct (Hsub c s' Hs') as (s & Hs & Hincl).
  assert (other_member sid room = c) as <-; [|done].
  apply (relay_private st Hrel c _ s); [done|by apply Hincl|].
  by apply (inv_members_connected st Hinv (room_id room) room).
Qed.

(** In a state reached by events with fresh ids, whatever a further event
    with fresh ids delivers goes to its sender or to a socket that is in a
    room with the sender, before or after the event; the exceptions are
    accept- and reject-voice/video-call, which name their recipient. *)
Theorem deliveries_stay_in_the_room (Math : MathLib) (evs : list (string * Inbound))
    (sid : string) (ev : Inbound) :
  let st := run Math evs init in
  ids_fresh Math (evs ++ [(sid, ev)]) init = true →
  is_call_answer ev = false →
  let r := dispatch Math sid ev st in
  ∀ c e, (c, e) ∈ r.2 →
    c = sid ∨
    ∃ room, (getRoomBySocketId sid (chatManager st) = Some room ∨
             getRoomBySocketId sid (chatManager r.1) = Some room) ∧
            is_member c room.
Proof.
  intros st [Hevs Hev]%ids_fresh_snoc Hanswer r c e.
  pose proof (run_inv Math evs) as Hinv.
  pose proof (run_relay_inv Math evs Hevs) as Hrel. fold st in Hinv, Hrel, Hev.
  assert (∀ c0 s', sockets st !! c0 = Some s' →
            ∃ s, sockets st !! c0 = Some s ∧ rooms s' ⊆ rooms s) as Hsame
    by (intros c0 s' Hs'; by exists s').
  assert ((c = sid ∨ ∃ room0, getRoomBySocketId sid (chatManager st) = Some room0 ∧
                              is_member c room0) →
          c = sid ∨
          ∃ room0, (getRoomBySocketId sid (chatManager st) = Some room0 ∨
                    getRoomBySocketId sid (chatManager r.1) = Some room0) ∧
                   is_member c room0) as Hweak.
  { intros [->|(room0 & H & Hm)]; [by left|]. right. exists room0. by split; [left|]. }
  assert (∀ room cm' sk' ev0,
            getRoomBySocketId sid (chatManager st) = Some room →
            activeRooms cm' = activeRooms (chatManager st) →
            (∀ c0 s', sk' !! c0 = Some s' →
               ∃ s, sockets st !! c0 = Some s ∧ rooms s' ⊆ rooms s) →
            (c, e) ∈ emit_to_partner (getPartnerSocketId (room_id room) sid cm') ev0 sk' →
            c = sid ∨ ∃ room0, getRoomBySocketId sid (chatManager st) = Some room0 ∧
                               is_member c room0) as Hpartner.
  { intros room cm' sk' ev0 Hroom Hrooms Hsub Hin. right. exists room.
    split; [done|]. by apply (partner_delivery st sid room cm' sk' ev0 c e). }
  assert (∀ ev0, (c, e) ∈ socket_emit sid ev0 →
            c = sid ∨ ∃ room0, getRoomBySocketId sid (chatManager st) = Some room0 ∧
                               is_member c room0) as Hself.
  { intros ev0 [[= -> _]|Hin]%elem_of_cons; [by left|by apply elem_of_nil in Hin]. }
  destruct (sockets st !! sid) as [sock|] eqn:Hsock.
  2: { unfold r, dispatch. rewrite Hsock.
       destruct ev; simpl; intros Hin; by apply elem_of_nil in Hin. }
  destruct ev; try done.
  - unfold r, dispatch. rewrite Hsock. simpl. intros Hin. by apply elem_of_nil in Hin.
  - intros Hin. apply Hweak. revert Hin. unfold r, dispatch. rewrite Hsock.
    apply Hself.
  - clear Hweak Hpartner Hself. unfold r, dispatch. rewrite Hsock. clear r.
    pose proof (on_find_partner_inv Math sid uuid now st (mk_is_Some _ _ Hsock) Hinv)
      as Hinv'.
    pose proof (on_find_partner_relay_inv Math sid uuid now st Hev Hinv Hrel) as Hrel'.
    revert Hinv' Hrel'. unfold on_find_partner.
    destruct (userSockets (chatManager st) !! sid) as [userInfo|] eqn:Hreg.
    2: { intros _ _ [[= -> _]|Hin]%elem_of_cons; [by left|by apply elem_of_nil in Hin]. }
    destruct (getRoomBySocketId sid (chatManager st)) eqn:Hroom.
    { intros _ _ [[= -> _]|Hin]%elem_of_cons; [by left|by apply elem_of_nil in Hin]. }
    destruct (findMatch sid (chatManager st)) as [[m|] cm1] eqn:Hmatch.
    2: { intros _ _ [[= -> _]|Hin]%elem_of_cons; [by left|by apply elem_of_nil in Hin]. }
    apply findMatch_Some in Hmatch as (Hm & Hne & ->). simpl.
    intros Hinv' Hrel' [[= -> _]|Hin]%elem_of_cons; [by left|]. right.
    apply elem_of_io_to in Hin as [_ (s' & Hs' & Hc)%elem_of_group].
    assert (socketId m = c) as <-.
    { apply (relay_private _ Hrel' c (socketId m) s' Hs' Hc). simpl.
      unfold socket_join. rewrite !is_Some_lookup_alter.
      by apply (inv_waiting_connected st). }
    eexists. split.
    + right.
      match type of Hinv' with inv ?s => apply (find_room_unique s sid uuid) end;
        [done| |].
      * simpl. apply elem_of_Map_set; [apply Hinv|by left].
      * left. simpl. by apply (inv_registry st Hinv).
    + by right.
  - intros Hin. apply Hweak. revert Hin. unfold r, dispatch. rewrite Hsock.
    unfold on_send.
    destruct (getRoomBySocketId sid (chatManager st)) as [room|] eqn:Hroom;
      [|apply Hself]. simpl.
    intros [_ Hc]%elem_of_io_to. right. exists room. split; [done|].
    destruct (find_room_lookup st sid room Hinv Hroom) as (Hin & _ & _).
    by apply (group_of_room st (room_id room) room c).
  - intros Hin. apply Hweak. revert Hin. unfold r, dispatch. rewrite Hsock.
    unfold on_get_partner_location.
    destruct (getRoomBySocketId sid (chatManager st)) as [room|];
      [|simpl; apply Hself].
    destruct (getPartnerInfo _ _ _); simpl; apply (Hself (partner_location _)).
  - intros Hin. apply Hweak. revert Hin. unfold r, dispatch. rewrite Hsock.
    unfold on_stop_chat.
    change (getRoomBySocketId sid (removeWaitingUser sid (chatManager st)))
      with (getRoomBySocketId sid (chatManager st)).
    destruct (getRoomBySocketId sid (chatManager st)) as [room|] eqn:Hroom;
      [|apply Hself]. simpl.
    intros [Hin|Hin]%elem_of_app; [|by apply (Hself chat_stopped)].
    by apply (Hpartner room _ _ _ eq_refl eq_refl Hsame Hin).
  - intros Hin. apply Hweak. revert Hin. unfold r, dispatch. rewrite Hsock.
    unfold on_initiate_call.
    destruct (getRoomBySocketId sid (chatManager st)) as [room|] eqn:Hroom;
      [|apply Hself]. simpl. intros Hin.
    by apply (Hpartner room _ _ _ eq_refl eq_refl Hsame Hin).
  - intros Hin. apply Hweak. revert Hin. unfold r, dispatch. rewrite Hsock.
    unfold on_end_call, forward_to_partner.
    destruct (getRoomBySocketId sid (chatManager st)) as [room|] eqn:Hroom; simpl;
      intros Hin; [|by apply elem_of_nil in Hin].
    by apply (Hpartner room _ _ _ eq_refl eq_refl Hsame Hin).
  - intros Hin. apply Hweak. revert Hin. unfold r, dispatch. rewrite Hsock.
    unfold on_webrtc, forward_to_partner.
    destruct (getRoomBySocketId sid (chatManager st)) as [room|] eqn:Hroom; simpl;
      intros Hin; [|by apply elem_of_nil in Hin].
    by apply (Hpartner room _ _ _ eq_refl eq_refl Hsame Hin).
  - intros Hin. apply Hweak. revert Hin. unfold r, dispatch. rewrite Hsock.
    unfold on_typing, forward_to_partner.
    destruct (getRoomBySocketId sid (chatManager st)) as [room|] eqn:Hroom; simpl;
      intros Hin; [|by apply elem_of_nil in Hin].
    by apply (Hpartner room _ _ _ eq_refl eq_refl Hsame Hin).
  - intros Hin. apply Hweak. revert Hin. unfold r, dispatch. rewrite Hsock.
    unfold on_disconnect.
    change (getRoomBySocketId sid
              (set_userSockets
                 (delete sid (userSockets (removeWaitingUser sid (chatManager st))))
                 (removeWaitingUser sid (chatManager st))))
      with (getRoomBySocketId sid (chatManager st)).
    destruct (getRoomBySocketId sid (chatManager st)) as [room|] eqn:Hroom; simpl;
      intros Hin; [|by apply elem_of_nil in Hin].
    apply (Hpartner room _ _ _ eq_refl eq_refl) in Hin; [done|].
    intros c0 s' [_ Hs']%lookup_delete_Some. by exists s'.
Qed.

Lemma deliveries_stay_in_the_room_witness :
  "B" = "A" ∨
  ∃ room,
    (getRoomBySocketId "A" (chatManager (run no_Math paired init)) = Some room ∨
     getRoomBySocketId "A" (chatManager
       (dispatch no_Math "A" (ev_typing typing_start) (run no_Math paired init)).1) =
       Some room) ∧
    is_member "B" room.
Proof.
  apply (deliveries_stay_in_the_room no_Math paired "A" (ev_typing typing_start)
           eq_refl eq_refl "B" (partner_typing typing_start)).
  vm_compute. left.
Defined.

(** ** Partnership is symmetric *)

(** After any sequence of events, when a socket is in a room, the other
    member of that room is a different socket, it is in the same room, and
    its other member is the first socket again; [getPartnerSocketId] and
    [getPartnerInfo] answer with that other member and its snapshot. *)
Theorem partnership_is_symmetric (Math : MathLib) (evs : list (string * Inbound))
    (sid : string) (room : Room) :
  let cm := chatManager (run Math evs init) in
  getRoomBySocketId sid cm = Some room →
  let partner := other_member sid room in
  partner ≠ sid ∧
  getRoomBySocketId partner cm = Some room ∧
  other_member partner room = sid ∧
  getPartnerSocketId (room_id room) sid cm = Some partner ∧
  getPartnerSocketId (room_id room) partner cm = Some sid ∧
  getPartnerInfo (room_id room) sid cm = Some (other_user sid room) ∧
  socketId (other_user sid room) = partner.
Proof.
  intros cm Hroom partner. pose proof (run_inv Math evs) as Hinv.
  destruct (find_room_lookup _ sid room Hinv Hroom) as (Hin & Hm & Hget).
  destruct (getPartnerSocketId_member _ sid room Hinv Hroom) as (Hp & Hne & Hpm).
  pose proof (inv_distinct _ Hinv _ room Hin) as Hdist.
  fold cm in Hin, Hget, Hp. fold partner in Hp, Hne, Hpm.
  assert (getRoomBySocketId partner cm = Some room) as Hproom
    by by apply (find_room_unique _ partner (room_id room)).
  assert (other_member partner room = sid) as Hback.
  { unfold partner, other_member.
    destruct (decide (socketId (user1 room) = sid)) as [H1|H1].
    - by rewrite decide_False by congruence.
    - destruct Hm as [?|H2]; [done|]. by rewrite decide_True. }
  repeat split; try done.
  - destruct (getPartnerSocketId_member _ partner room Hinv Hproom) as (Hp' & _ & _).
    fold cm in Hp'. by rewrite Hp', Hback.
  - unfold getPartnerInfo, other_user. fold cm. rewrite Hget.
    destruct (decide (socketId (user1 room) = sid)) as [H1|H1]; [done|].
    destruct Hm as [?|H2]; [done|]. by rewrite decide_True.
  - unfold partner, other_user, other_member. by case_decide.
Qed.

Lemma partnership_is_symmetric_witness :
  getRoomBySocketId "B" (chatManager (run no_Math paired init)) =
  getRoomBySocketId "A" (chatManager (run no_Math paired init)).
Proof.
  pose proof (partnership_is_symmetric no_Math paired "A"
    {| room_id := "room-1";
       user1 := {| nickname := None; socketId := "B"; joinedAt := 2;
                   location := None; ip := "10.0.0.2" |};
       user2 := {| nickname := Some "alice"; socketId := "A"; joinedAt := 3;
                   location := Some jakarta; ip := "10.0.0.1" |};
       createdAt := 4; messages := []; distance := None |}) as H.
  cbv zeta in H. destruct H as (_ & H & _); [reflexivity|].
  etrans; [exact H|reflexivity].
Defined.

(** ** Room lookup and partner lookup *)

(** [getRoomBySocketId] returns the first room, in the order in which the
    rooms were created, that has the socket as one of its two members, and
    nothing exactly when no room has it. *)
Theorem getRoomBySocketId_first (sid : string) (cm : ChatManager) :
  match getRoomBySocketId sid cm with
  | Some room =>
      ∃ pre k post,
        activeRooms cm = pre ++ (k, room) :: post ∧ is_member sid room ∧
        Forall (λ p : string * Room, ¬ is_member sid p.2) pre
  | None => Forall (λ p : string * Room, ¬ is_member sid p.2) (activeRooms cm)
  end.
Proof.
  unfold getRoomBySocketId. induction (activeRooms cm) as [|[k r] rooms IH]; simpl.
  - constructor.
  - case_decide as Hm.
    + exists [], k, rooms. repeat split; [done|constructor].
    + destruct (find_room sid rooms) as [room|].
      * destruct IH as (pre & k' & post & -> & Hroom & Hpre).
        exists ((k, r) :: pre), k', post. repeat split; [done|by constructor].
      * by constructor.
Qed.

(** [getPartnerSocketId] and [getPartnerInfo] agree; they answer nothing
    for a room id that is not in the map and for a socket that is not a
    member of the room; in a room with two distinct members the partner of
    a member is the other member, and the partner of that one is the first
    again. *)
Theorem partner_lookup (roomId c : string) (cm : ChatManager) :
  getPartnerSocketId roomId c cm = socketId <$> getPartnerInfo roomId c cm ∧
  (Map_get roomId (activeRooms cm) = None → getPartnerSocketId roomId c cm = None) ∧
  (∀ room, Map_get roomId (activeRooms cm) = Some room →
     (is_Some (getPartnerSocketId roomId c cm) ↔ is_member c room) ∧
     (socketId (user1 room) ≠ socketId (user2 room) →
      ∀ p, getPartnerSocketId roomId c cm = Some p →
           p ≠ c ∧ is_member p room ∧ getPartnerSocketId roomId p cm = Some c)).
Proof.
  unfold getPartnerSocketId, getPartnerInfo.
  destruct (Map_get roomId (activeRooms cm)) as [room|].
  - split; [by repeat case_decide|]. split; [done|]. intros ? [= <-]. split.
    + unfold is_member.
      destruct (decide (socketId (user1 room) = c)) as [H1|H1];
        [split; [by left|by eauto]|].
      destruct (decide (socketId (user2 room) = c)) as [H2|H2];
        [split; [by right|by eauto]|].
      split; [intros Hs; by apply is_Some_None in Hs|by intros [?|?]].
    + intros Hdist p.
      destruct (decide (socketId (user1 room) = c)) as [H1|H1].
      * intros [= <-]. repeat split; [congruence|by right|].
        rewrite decide_False by done. rewrite decide_True by done. congruence.
      * destruct (decide (socketId (user2 room) = c)) as [H2|H2]; [|done].
        intros [= <-]. repeat split; [congruence|by left|].
        rewrite decide_True by done. congruence.
  - repeat split; done.
Qed.

Lemma partner_lookup_witness :
  getPartnerSocketId "room-9" "A" (chatManager (run no_Math paired init)) = None.
Proof.
  apply (partner_lookup "room-9" "A" (chatManager (run no_Math paired init))).
  reflexivity.
Defined.

(** ** Creating and removing a room *)

(** [createRoom] with an id that is not in the map, for two users that are
    in no room: the new room has an empty log, it is the room found for
    either user, each is the partner of the other, the queue and the
    registry are untouched, and [removeRoom] of the id gives the manager
    back as it was. *)
Theorem createRoom_then_removeRoom (Math : MathLib) (u1 u2 : User) (uuid : string)
    (now : Z) (cm : ChatManager) :
  uuid ∉ (activeRooms cm).*1 →
  getRoomBySocketId (socketId u1) cm = None →
  getRoomBySocketId (socketId u2) cm = None →
  let room := (createRoom Math u1 u2 uuid now cm).1 in
  let cm' := (createRoom Math u1 u2 uuid now cm).2 in
  messages room = [] ∧ user1 room = u1 ∧ user2 room = u2 ∧ room_id room = uuid ∧
  getRoomBySocketId (socketId u1) cm' = Some room ∧
  getRoomBySocketId (socketId u2) cm' = Some room ∧
  getPartnerSocketId uuid (socketId u1) cm' = Some (socketId u2) ∧
  getPartnerInfo uuid (socketId u1) cm' = Some u2 ∧
  (socketId u1 ≠ socketId u2 →
     getPartnerSocketId uuid (socketId u2) cm' = Some (socketId u1)) ∧
  waitingUsers cm' = waitingUsers cm ∧ userSockets cm' = userSockets cm ∧
  removeRoom uuid cm' = cm.
Proof.
  intros Hfresh H1 H2 room cm'. unfold getRoomBySocketId in *.
  assert (activeRooms cm' = activeRooms cm ++ [(uuid, room)]) as Hrooms
    by by apply Map_set_fresh.
  assert (Map_get uuid (activeRooms cm') = Some room) as Hget
    by apply Map_get_set_eq.
  repeat split.
  - rewrite Hrooms, find_room_app, H1. simpl. rewrite decide_True; [done|by left].
  - rewrite Hrooms, find_room_app, H2. simpl. rewrite decide_True; [done|by right].
  - unfold getPartnerSocketId. rewrite Hget. simpl. by rewrite decide_True.
  - unfold getPartnerInfo. rewrite Hget. simpl. by rewrite decide_True.
  - intros Hne. unfold getPartnerSocketId. rewrite Hget. simpl.
    rewrite decide_False by done. by rewrite decide_True.
  - unfold removeRoom. rewrite Hrooms. unfold Map_delete. rewrite filter_app.
    fold (Map_delete uuid (activeRooms cm)). rewrite Map_delete_absent by done.
    rewrite filter_cons_False by (simpl; intros Hx; by apply Hx).
    rewrite filter_nil, app_nil_r. by destruct cm.
Qed.

Lemma createRoom_then_removeRoom_witness :
  removeRoom "room-0"
    (createRoom no_Math (user_at "A" origin) (user_at "B" one_degree_east)
       "room-0" 0 ChatManager_new).2 = ChatManager_new.
Proof.
  apply (createRoom_then_removeRoom no_Math (user_at "A" origin)
           (user_at "B" one_degree_east) "room-0" 0 ChatManager_new);
    [apply not_elem_of_nil|reflexivity..].
Defined.

(** ** Appending to a log *)

(** [addMessageToRoom] does nothing for a room id that is not in the map;
    for a room that is there, two calls in a row put the two messages at
    the end of its log, in that order, each stored with the time of the
    call in place of the timestamp it came with; the members of the room and
    every other room are as before. *)
Theorem addMessageToRoom_appends (roomId : string) (m1 m2 : Message) (now1 now2 : Z)
    (cm : ChatManager) :
  let cm2 := addMessageToRoom roomId m2 now2 (addMessageToRoom roomId m1 now1 cm) in
  (Map_get roomId (activeRooms cm) = None → cm2 = cm) ∧
  (∀ room, Map_get roomId (activeRooms cm) = Some room →
     ∃ room', Map_get roomId (activeRooms cm2) = Some room' ∧
              messages room' = messages room ++ [stored m1 now1; stored m2 now2] ∧
              user1 room' = user1 room ∧ user2 room' = user2 room ∧
              room_id room' = room_id room ∧ distance room' = distance room) ∧
  (∀ k, k ≠ roomId → Map_get k (activeRooms cm2) = Map_get k (activeRooms cm)) ∧
  (activeRooms cm2).*1 = (activeRooms cm).*1.
Proof.
  intros cm2. unfold cm2. repeat split.
  - intros Hnone. unfold addMessageToRoom. by rewrite !Hnone.
  - intros room Hget. unfold addMessageToRoom at 2. rewrite Hget.
    unfold addMessageToRoom. simpl. rewrite Map_get_set_eq. simpl.
    eexists. split; [apply Map_get_set_eq|]. simpl.
    by rewrite <- app_assoc.
  - intros k Hne. unfold addMessageToRoom.
    destruct (Map_get roomId (activeRooms cm)) as [room|] eqn:Hget; simpl.
    + rewrite Map_get_set_eq. simpl. by rewrite !Map_get_set_ne.
    + by rewrite Hget.
  - by rewrite !addMessageToRoom_keys.
Qed.

Lemma addMessageToRoom_appends_witness :
  addMessageToRoom "room-9" (make_message (text_data "b") "m-1" "A" 6) 8
    (addMessageToRoom "room-9" (make_message (text_data "a") "m-0" "A" 5) 7
       (chatManager (run no_Math paired init))) =
  chatManager (run no_Math paired init).
Proof.
  apply (addMessageToRoom_appends "room-9" (make_message (text_data "a") "m-0" "A" 5)
           (make_message (text_data "b") "m-1" "A" 6) 7 8
           (chatManager (run no_Math paired init))).
  reflexivity.
Defined.

(** ** When a room has no distance *)

(** The distance of a new room is null exactly when one of the two users
    has no location or one of the four coordinates is null, zero or NaN;
    whether it is null does not depend on the order of the two users. *)
Theorem room_distance_null_iff (Math : MathLib) (u1 u2 : User) (uuid : string) (now : Z)
    (cm : ChatManager) :
  (distance (createRoom Math u1 u2 uuid now cm).1 = None ↔
   match location u1, location u2 with
   | Some l1, Some l2 =>
       (falsy (latitude l1) || falsy (longitude l1) ||
        falsy (latitude l2) || falsy (longitude l2))%bool = true
   | _, _ => True
   end) ∧
  (distance (createRoom Math u1 u2 uuid now cm).1 = None ↔
   distance (createRoom Math u2 u1 uuid now cm).1 = None) ∧
  (∀ x, falsy x = true ↔
        x = None ∨
        ∃ v, x = Some v ∧ (PrimFloat.eqb v 0 = true ∨ PrimFloat.eqb v v = false)).
Proof.
  unfold createRoom. simpl. split; [|split].
  - destruct (location u1) as [l1|], (location u2) as [l2|]; try done.
    apply calculateDistance_None.
  - destruct (location u1) as [l1|], (location u2) as [l2|]; try done.
    rewrite !calculateDistance_None.
    destruct (falsy (latitude l1)), (falsy (longitude l1)),
      (falsy (latitude l2)), (falsy (longitude l2)); done.
  - intros [v|]; simpl; [|by split; [left|]].
    unfold number_falsy. rewrite orb_true_iff, negb_true_iff. split.
    + intros H. right. by exists v.
    + intros [?|(v' & [= <-] & H)]; done.
Qed.

(** ** Upload filters *)

(** Every type that [fileFilter] accepts is classified by [getMediaType]
    under the key of [allowedTypes] it is listed under, and every listed
    type is accepted; the filter of the image upload accepts, among the
    types that [fileFilter] accepts, exactly those listed under image. *)
Theorem allowed_types_are_classified_by_their_key (mimetype : string) :
  (fileFilter mimetype = true ↔
   ∃ key, key ∈ ["image"; "video"; "audio"; "document"] ∧ mimetype ∈ allowedTypes key) ∧
  (∀ key, mimetype ∈ allowedTypes key → getMediaType mimetype = key) ∧
  (fileFilter mimetype = true →
   (uploadImage_fileFilter mimetype = true ↔ mimetype ∈ allowedTypes "image")).
Proof.
  assert (∀ key, mimetype ∈ allowedTypes key → getMediaType mimetype = key) as Hkey.
  { intros key. unfold allowedTypes. repeat case_decide; subst;
      rewrite ?elem_of_cons, elem_of_nil; intros Hin;
      repeat destruct Hin as [->|Hin]; done. }
  split; [|split; [done|]].
  - unfold fileFilter, allAllowedTypes. rewrite bool_decide_eq_true, !elem_of_app. split.
    + intros [H|[H|[H|H]]]; eexists; (split; [|exact H]);
        rewrite !elem_of_cons; auto.
    + intros (key & Hkeys & Hin).
      rewrite !elem_of_cons, elem_of_nil in Hkeys.
      destruct Hkeys as [->|[->|[->|[->|[]]]]]; auto.
  - unfold fileFilter, allAllowedTypes, uploadImage_fileFilter.
    rewrite bool_decide_eq_true, !elem_of_app. intros Hin. split.
    + intros Himg. destruct Hin as [H|[H|[H|H]]]; [done|..];
        apply Hkey in H; unfold getMediaType in H; rewrite Himg in H; done.
    + intros H%Hkey. revert H. unfold getMediaType.
      destruct (startsWith mimetype "image/"); [done|].
      by repeat destruct (startsWith mimetype _).
Qed.

Lemma allowed_types_are_classified_by_their_key_witness :
  getMediaType "application/pdf" = "document".
Proof.
  apply (allowed_types_are_classified_by_their_key "application/pdf").
  by vm_compute; apply list_elem_of_In; left.
Defined.

(** ** Relay groups follow the rooms *)

(** In a state reached by events with fresh ids, a connected socket is
    alone in the relay group named by its own id, and the relay group of an
    active room holds the two members of the room and nobody else. *)
Theorem relay_groups_follow_rooms (Math : MathLib) (evs : list (string * Inbound)) :
  let st := run Math evs init in
  ids_fresh Math evs init = true →
  (∀ c, is_Some (sockets st !! c) → group c (sockets st) = [c]) ∧
  (∀ k r, (k, r) ∈ activeRooms (chatManager st) →
     group k (sockets st) ≡ₚ [socketId (user1 r); socketId (user2 r)]).
Proof.
  intros st Hfresh. pose proof (run_inv Math evs) as Hinv.
  pose proof (run_relay_inv Math evs Hfresh) as Hrel. fold st in Hinv, Hrel.
  split.
  - intros c Hc. apply group_of_socket; [apply Hrel|apply Hrel|done].
  - intros k r Hr. apply NoDup_Permutation.
    + apply NoDup_group.
    + apply NoDup_cons. split; [|apply NoDup_singleton].
      rewrite list_elem_of_singleton. by apply (inv_distinct st Hinv k r).
    + intros c. rewrite (group_of_room st k r c Hinv Hrel Hr).
      rewrite elem_of_cons, list_elem_of_singleton. unfold is_member. naive_solver.
Qed.

Lemma relay_groups_follow_rooms_witness :
  group "room-1" (sockets (run no_Math paired init)) ≡ₚ ["B"; "A"].
Proof.
  pose proof (relay_groups_follow_rooms no_Math paired) as H.
  cbv zeta in H. destruct H as [_ H]; [reflexivity|].
  apply (H "room-1"
    {| room_id := "room-1";
       user1 := {| nickname := None; socketId := "B"; joinedAt := 2;
                   location := None; ip := "10.0.0.2" |};
       user2 := {| nickname := Some "alice"; socketId := "A"; joinedAt := 3;
                   location := Some jakarta; ip := "10.0.0.1" |};
       createdAt := 4; messages := []; distance := None |}).
  vm_compute. left.
Defined.
